(** * Bloom filter and HyperLogLog sketches: a shallow embedding

    The two Python classes [BloomFilter] (bloom_filter_passwords.py) and
    [HyperLogLog] (hll_vs_exact.py) are embedded as state-passing programs
    over records.  Python integers are [Z], Python lists are [list Z],
    [str] objects are byte strings (already UTF-8 encoded, so that
    [.encode("utf-8")] is the identity), and a method is a computation in a
    monad that threads the object ([self]) and may raise an exception.
    Python floats are idealised as real numbers: neither the rounding nor
    the range of binary64 is modelled.  The statements about [count] on an
    arbitrary estimator therefore assume registers within the bound that
    [add] maintains, and where they depend on the outcome of a comparison
    with [2.5 * m] or [2^32] they keep a relative distance of 10^-6 from
    the threshold, far more than the rounding error that the code can
    accumulate (below 10^-10 for up to 65536 registers). *)

From Stdlib Require Import ZArith List String Ascii Bool Lia DecimalString.
From Stdlib Require Import Reals Lra.
Import ListNotations.

Local Open Scope Z_scope.

(** ** A fragment of Python *)

Module Py.

(** The exceptions the two files can raise. *)
Inductive exn : Type :=
| ValueError
| IndexError
| ZeroDivisionError.

Inductive result (A : Type) : Type :=
| Ok (a : A)
| Raise (e : exn).
Arguments Ok {A} a.
Arguments Raise {A} e.

(** A method body: it reads and writes [self : S] and either returns a
    value or raises; what was written before a raise stays written. *)
Definition M (S A : Type) : Type := S -> result A * S.

Definition ret {S A} (a : A) : M S A := fun s => (Ok a, s).

Definition bind {S A B} (c : M S A) (k : A -> M S B) : M S B :=
  fun s =>
    match c s with
    | (Ok a, s') => k a s'
    | (Raise e, s') => (Raise e, s')
    end.

Definition get {S} : M S S := fun s => (Ok s, s).
Definition put {S} (s : S) : M S unit := fun _ => (Ok tt, s).
Definition raise {S A} (e : exn) : M S A := fun s => (Raise e, s).

Definition lift {S A} (r : result A) : M S A := fun s => (r, s).

Declare Scope py_scope.
Delimit Scope py_scope with py.
Notation "x <- c ;; k" := (bind c (fun x => k))
  (at level 61, c at next level, right associativity) : py_scope.
Notation "c ;;; k" := (bind c (fun _ => k))
  (at level 61, right associativity) : py_scope.
Local Open Scope py_scope.

(** [for x in xs: body(x)] *)
Fixpoint for_ {S A} (xs : list A) (body : A -> M S unit) : M S unit :=
  match xs with
  | [] => ret tt
  | x :: rest => body x ;;; for_ rest body
  end.

(** [all(test(x) for x in xs)]: the generator is consumed lazily, and
    [all] stops at the first falsy element. *)
Fixpoint all_ {S A} (xs : list A) (test : A -> M S bool) : M S bool :=
  match xs with
  | [] => ret true
  | x :: rest => b <- test x ;; if b then all_ rest test else ret false
  end.

(** [range(n)]: empty when [n <= 0]. *)
Definition range (n : Z) : list Z := map Z.of_nat (seq 0 (Z.to_nat n)).

(** [a % b] on integers: the sign of the result follows [b], as that of
    [Z.modulo] does. *)
Definition py_mod (a b : Z) : result Z :=
  if b =? 0 then Raise ZeroDivisionError else Ok (a mod b).

(** List subscripts: a negative index counts from the end. *)
Definition index_of (len i : Z) : result nat :=
  if (0 <=? i) && (i <? len) then Ok (Z.to_nat i)
  else if (- len <=? i) && (i <? 0) then Ok (Z.to_nat (len + i))
  else Raise IndexError.

Definition len {A} (l : list A) : Z := Z.of_nat (List.length l).

Fixpoint set_nth {A} (n : nat) (v : A) (l : list A) : list A :=
  match l, n with
  | [], _ => []
  | _ :: t, O => v :: t
  | h :: t, S n' => h :: set_nth n' v t
  end.

(** [l[i]] *)
Definition getitem {A} (l : list A) (i : Z) : result A :=
  match index_of (len l) i with
  | Ok n => match nth_error l n with
            | Some x => Ok x
            | None => Raise IndexError
            end
  | Raise e => Raise e
  end.

(** [l[i] = v] *)
Definition setitem {A} (l : list A) (i : Z) (v : A) : result (list A) :=
  match index_of (len l) i with
  | Ok n => Ok (set_nth n v l)
  | Raise e => Raise e
  end.

(** [l.count(0)] *)
Definition count0 (l : list Z) : Z :=
  len (filter (fun v => v =? 0) l).

(** [n.bit_length()] *)
Definition bit_length (n : Z) : Z :=
  if n =? 0 then 0 else Z.log2 (Z.abs n) + 1.

(** The values that are fed to the sketches ([Any] in the source). *)
Inductive value : Type :=
| PyNone
| PyStr (s : string)
| PyInt (n : Z)
| PyBool (b : bool).

(** The decimal representation of an integer. *)
Definition decimal (n : Z) : string := NilZero.string_of_int (Z.to_int n).

(** The limit of the conversion of integers to strings: CPython refuses
    to print an integer of more than 4300 digits, that is, one whose
    absolute value reaches [10 ^ 4300]. *)
Definition int_str_limit : Z := Eval vm_compute in 10 ^ 4300.

(** [str(n)] for an integer: its decimal representation, or a
    [ValueError] beyond the limit. *)
Definition str_int (n : Z) : result string :=
  if int_str_limit <=? Z.abs n then Raise ValueError else Ok (decimal n).

(** [str(v)] *)
Definition str (v : value) : result string :=
  match v with
  | PyNone => Ok "None"%string
  | PyStr s => Ok s
  | PyInt n => str_int n
  | PyBool true => Ok "True"%string
  | PyBool false => Ok "False"%string
  end.

(** A [Dict[str, str]]: insertion-ordered, a later store to a key that is
    present replaces the value in place. *)
Definition dict (V : Type) : Type := list (string * V).

Fixpoint dict_set {V} (d : dict V) (k : string) (v : V) : dict V :=
  match d with
  | [] => [(k, v)]
  | (k', v') :: rest =>
      if String.eqb k' k then (k', v) :: rest else (k', v') :: dict_set rest k v
  end.

Definition keys {V} (d : dict V) : list string := map fst d.

End Py.

Import Py.
Local Open Scope py_scope.

(** ** bloom_filter_passwords.py *)

Module Bloom.

Record BloomFilter : Type := mkBloomFilter {
  size : Z;
  num_hashes : Z;
  bit_array : list Z
}.

Definition with_bit_array (self : BloomFilter) (l : list Z) : BloomFilter :=
  {| size := size self; num_hashes := num_hashes self; bit_array := l |}.

(** [BloomFilter(size, num_hashes)] *)
Definition __init__ (size num_hashes : Z) : result BloomFilter :=
  if size <=? 0 then Raise ValueError
  else if num_hashes <=? 0 then Raise ValueError
  else Ok {| size := size;
             num_hashes := num_hashes;
             bit_array := repeat 0 (Z.to_nat size) |}.

(** [_normalize]: [None] becomes the empty string. *)
Definition _normalize (item : value) : result string :=
  match item with
  | PyNone => Ok ""%string
  | _ => str item
  end.

(** The two report labels of [check_password_uniqueness]. *)
Definition already_used_label : string := "вже використаний".
Definition unique_label : string := "унікальний".

Section WithHash.

(** [sha256 data] stands for [int(hashlib.sha256(data).hexdigest(), 16)]. *)
Variable sha256 : string -> Z.

(** The [i]-th element yielded by [_hashes] for the normalised string
    [s]: [str(i)] first, then the digest, then [self.size], read when the
    element is produced. *)
Definition _hashes_at (s : string) (i : Z) : M BloomFilter Z :=
  salt <- lift (str_int i) ;;
  let data := (s ++ salt)%string in
  self <- get ;;
  lift (py_mod (sha256 data) (size self)).

(** The generator [_hashes] normalises the item when it is first asked for
    an element, before [range(self.num_hashes)] is evaluated. *)
Definition add (item : value) : M BloomFilter unit :=
  s <- lift (_normalize item) ;;
  self <- get ;;
  for_ (range (num_hashes self)) (fun i =>
    pos <- _hashes_at s i ;;
    self <- get ;;
    l <- lift (setitem (bit_array self) pos 1) ;;
    put (with_bit_array self l)).

Definition __contains__ (item : value) : M BloomFilter bool :=
  s <- lift (_normalize item) ;;
  self <- get ;;
  all_ (range (num_hashes self)) (fun i =>
    pos <- _hashes_at s i ;;
    self <- get ;;
    b <- lift (getitem (bit_array self) pos) ;;
    ret (negb (b =? 0))).

(** [check_password_uniqueness(bloom, new_passwords)]; the filter is
    the threaded state, the report is the returned dictionary. *)
Fixpoint check_loop (pwds : list value) (results : dict string)
  : M BloomFilter (dict string) :=
  match pwds with
  | [] => ret results
  | pwd :: rest =>
      already_used <- __contains__ pwd ;;
      status <- (if already_used : bool then ret already_used_label
                 else add pwd ;;; ret unique_label) ;;
      key <- lift (str pwd) ;;
      check_loop rest (dict_set results key status)
  end.

Definition check_password_uniqueness (new_passwords : list value)
  : M BloomFilter (dict string) :=
  check_loop new_passwords [].

End WithHash.

End Bloom.

(** ** SHA-1 (FIPS 180-4), the function behind [hashlib.sha1]

    Needed to run [HyperLogLog] on concrete items.  Words are 32-bit
    integers in [Z], reduced after every operation that can overflow. *)

Module SHA1.

Definition w32 (x : Z) : Z := Z.land x 4294967295.

Definition rotl (n x : Z) : Z :=
  w32 (Z.lor (Z.shiftl x n) (Z.shiftr x (32 - n))).

Definition bytes_of (s : string) : list Z :=
  map (fun c => Z.of_N (N_of_ascii c)) (list_ascii_of_string s).

(** The [n] low bytes of [x], most significant first. *)
Fixpoint be_bytes (n : nat) (x : Z) : list Z :=
  match n with
  | O => []
  | S n' => Z.land (Z.shiftr x (8 * Z.of_nat n')) 255 :: be_bytes n' x
  end.

(** Message, the byte 0x80, zeros up to 56 modulo 64, the bit length on
    eight bytes. *)
Definition pad (msg : list Z) : list Z :=
  let l := len msg in
  let zeros := Z.to_nat ((55 - l) mod 64) in
  msg ++ 128 :: repeat 0 zeros ++ be_bytes 8 (8 * l).

Fixpoint words (fuel : nat) (bs : list Z) : list Z :=
  match fuel, bs with
  | S f, b0 :: b1 :: b2 :: b3 :: rest =>
      (Z.shiftl b0 24 + Z.shiftl b1 16 + Z.shiftl b2 8 + b3) :: words f rest
  | _, _ => []
  end.

(** The message schedule, newest word first. *)
Fixpoint schedule (n : nat) (ws : list Z) : list Z :=
  match n with
  | O => ws
  | S n' =>
      let w := rotl 1 (Z.lxor (Z.lxor (nth 2 ws 0) (nth 7 ws 0))
                              (Z.lxor (nth 13 ws 0) (nth 15 ws 0))) in
      schedule n' (w :: ws)
  end.

Definition state : Type := (Z * Z * Z * Z * Z)%type.

Definition round (t : Z) (st : state) (w : Z) : state :=
  let '(a, b, c, d, e) := st in
  let '(f, k) :=
    if t <? 20 then
      (Z.lor (Z.land b c) (Z.land (Z.lxor b 4294967295) d), 1518500249)
    else if t <? 40 then (Z.lxor (Z.lxor b c) d, 1859775393)
    else if t <? 60 then
      (Z.lor (Z.lor (Z.land b c) (Z.land b d)) (Z.land c d), 2400959708)
    else (Z.lxor (Z.lxor b c) d, 3395469782) in
  (w32 (rotl 5 a + f + e + k + w), a, rotl 30 b, c, d).

Fixpoint rounds (t : Z) (ws : list Z) (st : state) : state :=
  match ws with
  | [] => st
  | w :: rest => rounds (t + 1) rest (round t st w)
  end.

Definition compress (h : state) (block : list Z) : state :=
  let ws := rev (schedule 64 (rev block)) in
  let '(h0, h1, h2, h3, h4) := h in
  let '(a, b, c, d, e) := rounds 0 ws h in
  (w32 (h0 + a), w32 (h1 + b), w32 (h2 + c), w32 (h3 + d), w32 (h4 + e)).

Fixpoint blocks (fuel : nat) (ws : list Z) (h : state) : state :=
  match fuel, ws with
  | S f, _ :: _ => blocks f (skipn 16 ws) (compress h (firstn 16 ws))
  | _, _ => h
  end.

Definition init : state :=
  (1732584193, 4023233417, 2562383102, 271733878, 3285377520).

(** [int(hashlib.sha1(data).hexdigest(), 16)] *)
Definition sha1 (data : string) : Z :=
  let bs := pad (bytes_of data) in
  let ws := words (List.length bs) bs in
  let '(h0, h1, h2, h3, h4) := blocks (List.length ws) ws init in
  Z.shiftl h0 128 + Z.shiftl h1 96 + Z.shiftl h2 64 + Z.shiftl h3 32 + h4.

End SHA1.

(** ** SHA-256 (FIPS 180-4), the function behind [hashlib.sha256] *)

Module SHA256.

Definition w32 (x : Z) : Z := Z.land x 4294967295.

Definition rotr (n x : Z) : Z :=
  w32 (Z.lor (Z.shiftr x n) (Z.shiftl x (32 - n))).

Definition xor3 (a b c : Z) : Z := Z.lxor (Z.lxor a b) c.

Definition small_sigma0 (x : Z) : Z := xor3 (rotr 7 x) (rotr 18 x) (Z.shiftr x 3).
Definition small_sigma1 (x : Z) : Z := xor3 (rotr 17 x) (rotr 19 x) (Z.shiftr x 10).
Definition big_sigma0 (x : Z) : Z := xor3 (rotr 2 x) (rotr 13 x) (rotr 22 x).
Definition big_sigma1 (x : Z) : Z := xor3 (rotr 6 x) (rotr 11 x) (rotr 25 x).

Definition ch (x y z : Z) : Z :=
  Z.lxor (Z.land x y) (Z.land (Z.lxor x 4294967295) z).
Definition maj (x y z : Z) : Z :=
  xor3 (Z.land x y) (Z.land x z) (Z.land y z).

(** The round constants. *)
Definition K : list Z :=
  [
   1116352408; 1899447441; 3049323471; 3921009573; 961987163; 1508970993;
   2453635748; 2870763221; 3624381080; 310598401; 607225278; 1426881987;
   1925078388; 2162078206; 2614888103; 3248222580; 3835390401; 4022224774;
   264347078; 604807628; 770255983; 1249150122; 1555081692; 1996064986;
   2554220882; 2821834349; 2952996808; 3210313671; 3336571891; 3584528711;
   113926993; 338241895; 666307205; 773529912; 1294757372; 1396182291;
   1695183700; 1986661051; 2177026350; 2456956037; 2730485921; 2820302411;
   3259730800; 3345764771; 3516065817; 3600352804; 4094571909; 275423344;
   430227734; 506948616; 659060556; 883997877; 958139571; 1322822218;
   1537002063; 1747873779; 1955562222; 2024104815; 2227730452; 2361852424;
   2428436474; 2756734187; 3204031479; 3329325298
  ].

(** The message schedule, newest word first. *)
Fixpoint schedule (n : nat) (ws : list Z) : list Z :=
  match n with
  | O => ws
  | S n' =>
      let w := w32 (small_sigma1 (nth 1 ws 0) + nth 6 ws 0
                    + small_sigma0 (nth 14 ws 0) + nth 15 ws 0) in
      schedule n' (w :: ws)
  end.

Definition state : Type := (Z * Z * Z * Z * Z * Z * Z * Z)%type.

Definition round (st : state) (kw : Z * Z) : state :=
  let '(a, b, c, d, e, f, g, h) := st in
  let '(k, w) := kw in
  let t1 := h + big_sigma1 e + ch e f g + k + w in
  let t2 := big_sigma0 a + maj a b c in
  (w32 (t1 + t2), a, b, c, w32 (d + t1), e, f, g).

Definition compress (hs : state) (block : list Z) : state :=
  let ws := rev (schedule 48 (rev block)) in
  let '(h0, h1, h2, h3, h4, h5, h6, h7) := hs in
  let '(a, b, c, d, e, f, g, h) := fold_left round (combine K ws) hs in
  (w32 (h0 + a), w32 (h1 + b), w32 (h2 + c), w32 (h3 + d),
   w32 (h4 + e), w32 (h5 + f), w32 (h6 + g), w32 (h7 + h)).

Fixpoint blocks (fuel : nat) (ws : list Z) (hs : state) : state :=
  match fuel, ws with
  | S f, _ :: _ => blocks f (skipn 16 ws) (compress hs (firstn 16 ws))
  | _, _ => hs
  end.

Definition init : state :=
  (1779033703, 3144134277, 1013904242, 2773480762,
   1359893119, 2600822924, 528734635, 1541459225).

(** [int(hashlib.sha256(data).hexdigest(), 16)] *)
Definition sha256 (data : string) : Z :=
  let bs := SHA1.pad (SHA1.bytes_of data) in
  let ws := SHA1.words (List.length bs) bs in
  let '(h0, h1, h2, h3, h4, h5, h6, h7) := blocks (List.length ws) ws init in
  Z.shiftl h0 224 + Z.shiftl h1 192 + Z.shiftl h2 160 + Z.shiftl h3 128
  + Z.shiftl h4 96 + Z.shiftl h5 64 + Z.shiftl h6 32 + h7.

End SHA256.

(** ** hll_vs_exact.py *)

Module HLL.

Definition MAX_BITS : Z := 64.

Record HyperLogLog : Type := mkHyperLogLog {
  p : Z;
  m : Z;
  registers : list Z
}.

Definition with_registers (self : HyperLogLog) (l : list Z) : HyperLogLog :=
  {| p := p self; m := m self; registers := l |}.

(** [a << n] and [a >> n]: a negative shift count is a [ValueError]. *)
Definition py_lshift (a n : Z) : result Z :=
  if n <? 0 then Raise ValueError else Ok (Z.shiftl a n).
Definition py_rshift (a n : Z) : result Z :=
  if n <? 0 then Raise ValueError else Ok (Z.shiftr a n).

(** [HyperLogLog(p)] *)
Definition __init__ (p : Z) : result HyperLogLog :=
  if negb ((4 <=? p) && (p <=? 16)) then Raise ValueError
  else
    let m := Z.shiftl 1 p in
    Ok {| p := p; m := m; registers := repeat 0 (Z.to_nat m) |}.

(** [math.log]: a [ValueError] outside the positive reals. *)
Definition math_log (x : R) : result R :=
  if Rle_dec x 0 then Raise ValueError else Ok (ln x).

(** [a / b] on floats: dividing by zero is a [ZeroDivisionError]. *)
Definition py_div (a b : R) : result R :=
  if Req_dec_T b 0 then Raise ZeroDivisionError else Ok (a / b)%R.

(** The constant [alpha_m] of [count]. *)
Definition alpha_m (m : Z) : result R :=
  if m =? 16 then Ok 0.673%R
  else if m =? 32 then Ok 0.697%R
  else if m =? 64 then Ok 0.709%R
  else
    match py_div 1.079 (IZR m) with
    | Ok q => py_div 0.7213 (1 + q)
    | Raise e => Raise e
    end.

(** [sum(2.0 ** -v for v in registers)], accumulated from the left
    starting at 0; [2.0 ** -v] is the real power, the range of floats is
    not modelled: for a register below -1023 the code raises
    [OverflowError], and registers above 1074 add [0.0].  Registers that
    [add] has written are between 0 and [MAX_BITS - p + 1], where the
    power is a float and the sum is exact up to rounding. *)
Definition harmonic_sum (registers : list Z) : R :=
  fold_left (fun acc v => (acc + powerRZ 2 (- v))%R) registers 0%R.

(** [float(1 << 32)] *)
Definition TWO_32 : R := IZR (Z.shiftl 1 32).

(** [count]: it only reads [self]. *)
Definition count : M HyperLogLog R :=
  self <- get ;;
  let m := m self in
  let registers := registers self in
  alpha_m <- lift (alpha_m m) ;;
  let Z := harmonic_sum registers in
  E <- lift (py_div (alpha_m * IZR (m ^ 2)) Z) ;;
  let V := count0 registers in
  E <- (if Rle_dec E (5.0 * IZR m / 2.0)
        then if negb (V =? 0)
             then q <- lift (py_div (IZR m) (IZR V)) ;;
                  l <- lift (math_log q) ;;
                  ret (IZR m * l)%R
             else ret E
        else ret E) ;;
  if Rgt_dec E (TWO_32 / 30.0)
  then l <- lift (math_log (1.0 - E / TWO_32)) ;;
       ret (- TWO_32 * l)%R
  else ret E.

Section WithHash.

(** [sha1 data] stands for [int(hashlib.sha1(data).hexdigest(), 16)];
    [SHA1.sha1] is the function itself. *)
Variable sha1 : string -> Z.

Definition _hash (value : value) : M HyperLogLog Z :=
  data <- lift (str value) ;;
  let digest := sha1 data in
  ret (Z.land digest (Z.shiftl 1 MAX_BITS - 1)).

Definition _rho (w : Z) : M HyperLogLog Z :=
  self <- get ;;
  let bits := MAX_BITS - p self in
  if w =? 0 then ret (bits + 1)
  else
    let leading_zeros := bits - bit_length w in
    ret (leading_zeros + 1).

Definition add (value : value) : M HyperLogLog unit :=
  x <- _hash value ;;
  self <- get ;;
  idx <- lift (py_rshift x (MAX_BITS - p self)) ;;
  mask <- lift (py_lshift 1 (MAX_BITS - p self)) ;;
  let w := Z.land x (mask - 1) in
  rho <- _rho w ;;
  self <- get ;;
  r <- lift (getitem (registers self) idx) ;;
  if rho >? r
  then l <- lift (setitem (registers self) idx rho) ;;
       put (with_registers self l)
  else ret tt.

End WithHash.

End HLL.

(** * Properties *)

(** ** The Python fragment *)

Lemma set_nth_length {A} (n : nat) (v : A) (l : list A) :
  List.length (set_nth n v l) = List.length l.
Proof.
  revert n; induction l as [|h t IH]; intros [|n]; simpl; auto.
Qed.

Lemma set_nth_same {A} (n : nat) (v : A) (l : list A) :
  (n < List.length l)%nat -> nth_error (set_nth n v l) n = Some v.
Proof.
  revert n; induction l as [|h t IH]; intros [|n] Hn; simpl in *;
    try lia; auto.
  apply IH; lia.
Qed.

Lemma set_nth_other {A} (n k : nat) (v : A) (l : list A) :
  n <> k -> nth_error (set_nth n v l) k = nth_error l k.
Proof.
  revert n k; induction l as [|h t IH]; intros [|n] [|k] Hnk; simpl;
    try congruence; auto.
Qed.

Lemma set_nth_twice {A} (n : nat) (v : A) (l : list A) :
  set_nth n v (set_nth n v l) = set_nth n v l.
Proof.
  revert n; induction l as [|h t IH]; intros [|n]; simpl; auto.
  now rewrite IH.
Qed.

Lemma set_nth_swap {A} (n k : nat) (v : A) (l : list A) :
  set_nth n v (set_nth k v l) = set_nth k v (set_nth n v l).
Proof.
  revert n k; induction l as [|h t IH]; intros [|n] [|k]; simpl; auto.
  now rewrite IH.
Qed.

Lemma len_set_nth {A} (n : nat) (v : A) (l : list A) :
  len (set_nth n v l) = len l.
Proof. unfold len; now rewrite set_nth_length. Qed.

Lemma len_repeat {A} (x : A) (n : Z) : 0 <= n -> len (repeat x (Z.to_nat n)) = n.
Proof. intros Hn; unfold len; rewrite repeat_length; lia. Qed.

Lemma index_of_in_range (n i : Z) :
  0 <= i < n -> index_of n i = Ok (Z.to_nat i).
Proof.
  intros Hi; unfold index_of.
  destruct (0 <=? i) eqn:E1; [|lia].
  destruct (i <? n) eqn:E2; [reflexivity|lia].
Qed.

Lemma range_in (n i : Z) : In i (range n) <-> 0 <= i < n.
Proof.
  unfold range; rewrite in_map_iff; split.
  - intros (k & <- & Hk); apply in_seq in Hk; lia.
  - intros Hi; exists (Z.to_nat i); split; [lia|apply in_seq; lia].
Qed.

(** A computation is read-only when it hands back the object it was given,
    whether it returns or raises. *)
Definition readonly {S A} (c : M S A) : Prop := forall s, snd (c s) = s.

Lemma readonly_ret {S A} (a : A) : readonly (@ret S A a).
Proof. now intros s. Qed.

Lemma readonly_get {S} : readonly (@get S).
Proof. now intros s. Qed.

Lemma readonly_lift {S A} (r : result A) : readonly (@lift S A r).
Proof. now intros s. Qed.

Lemma readonly_bind {S A B} (c : M S A) (k : A -> M S B) :
  readonly c -> (forall a, readonly (k a)) -> readonly (bind c k).
Proof.
  intros Hc Hk s; unfold bind.
  specialize (Hc s); destruct (c s) as [[a|e] s']; simpl in Hc; subst s'.
  - apply Hk.
  - reflexivity.
Qed.

Lemma readonly_all {S A} (xs : list A) (test : A -> M S bool) :
  (forall x, readonly (test x)) -> readonly (all_ xs test).
Proof.
  intros Ht; induction xs as [|x rest IH]; simpl.
  - apply readonly_ret.
  - apply readonly_bind; [apply Ht|].
    intros [|]; [exact IH|apply readonly_ret].
Qed.

Create HintDb readonly.
#[export] Hint Resolve readonly_ret readonly_get readonly_lift : readonly.

Ltac readonly_step :=
  first [ apply readonly_bind; [|intro]
        | apply readonly_all; intro
        | solve [auto with readonly] ].

(** ** The Bloom filter *)

(** What [__init__] establishes and [add] keeps. *)
Definition bloom_wf (b : Bloom.BloomFilter) : Prop :=
  0 < Bloom.size b /\ len (Bloom.bit_array b) = Bloom.size b.

(** Setting the bits at the positions [ps], in order. *)
Definition set_bits (ps : list Z) (l : list Z) : list Z :=
  fold_left (fun l p => set_nth (Z.to_nat p) 1 l) ps l.

(** The truth value of [l[p]] for an index inside the list. *)
Definition bit_set (l : list Z) (p : Z) : bool :=
  match nth_error l (Z.to_nat p) with
  | Some v => negb (v =? 0)
  | None => false
  end.

Lemma set_bits_cons q ps l :
  set_bits (q :: ps) l = set_bits ps (set_nth (Z.to_nat q) 1 l).
Proof. reflexivity. Qed.

Lemma set_bits_length ps l : len (set_bits ps l) = len l.
Proof.
  revert l; induction ps as [|q ps IH]; intros l; [reflexivity|].
  rewrite set_bits_cons, IH; apply len_set_nth.
Qed.

Lemma set_bits_push n ps l :
  set_bits ps (set_nth n 1 l) = set_nth n 1 (set_bits ps l).
Proof.
  revert l; induction ps as [|q ps IH]; intros l; [reflexivity|].
  rewrite !set_bits_cons, <- IH; f_equal; apply set_nth_swap.
Qed.

Lemma set_bits_twice ps l : set_bits ps (set_bits ps l) = set_bits ps l.
Proof.
  revert l; induction ps as [|q ps IH]; intros l; [reflexivity|].
  rewrite !set_bits_cons.
  rewrite (set_bits_push _ ps l), set_nth_twice, <- set_bits_push.
  apply IH.
Qed.

Lemma bit_set_set_nth l n p :
  bit_set l p = true -> bit_set (set_nth n 1 l) p = true.
Proof.
  unfold bit_set; intros H.
  destruct (Nat.eq_dec n (Z.to_nat p)) as [->|Hne].
  - destruct (nth_error l (Z.to_nat p)) eqn:E; [|discriminate].
    rewrite set_nth_same; [reflexivity|].
    apply nth_error_Some; congruence.
  - now rewrite set_nth_other.
Qed.

Lemma set_bits_keeps ps l p :
  bit_set l p = true -> bit_set (set_bits ps l) p = true.
Proof.
  revert l; induction ps as [|q ps IH]; intros l H; [exact H|].
  rewrite set_bits_cons; apply IH, bit_set_set_nth, H.
Qed.

Lemma set_bits_sets ps l p :
  In p ps -> 0 <= p < len l -> bit_set (set_bits ps l) p = true.
Proof.
  revert l; induction ps as [|q ps IH]; intros l Hin Hp; [destruct Hin|].
  rewrite set_bits_cons; destruct Hin as [->|Hin].
  - apply set_bits_keeps; unfold bit_set.
    rewrite set_nth_same; [reflexivity|unfold len in Hp; lia].
  - apply IH; [assumption|now rewrite len_set_nth].
Qed.

(** ** Where [str] returns *)

(** [str(v)] returns. *)
Definition printable (v : value) : Prop := exists s, str v = Ok s.

(** The string that [str(v)] returns when it returns, and the one that
    [_normalize] returns then. *)
Definition str_of (v : value) : string :=
  match v with
  | PyNone => "None"
  | PyStr s => s
  | PyInt n => decimal n
  | PyBool true => "True"
  | PyBool false => "False"
  end.

Definition norm_of (v : value) : string :=
  match v with
  | PyNone => ""
  | _ => str_of v
  end.

Lemma str_printable v : printable v -> str v = Ok (str_of v).
Proof.
  intros (s & Hs); destruct v as [| |n|[|]]; try reflexivity.
  simpl in *; unfold str_int in *.
  destruct (int_str_limit <=? Z.abs n); [discriminate|reflexivity].
Qed.

Lemma str_returns v s : str v = Ok s -> s = str_of v.
Proof.
  intros Hs; rewrite (str_printable v (ex_intro _ s Hs)) in Hs; congruence.
Qed.

Lemma normalize_printable v :
  printable v -> Bloom._normalize v = Ok (norm_of v).
Proof.
  intros Hv; destruct v; try reflexivity; now apply str_printable in Hv.
Qed.

Lemma normalize_returns v s :
  Bloom._normalize v = Ok s -> printable v /\ s = norm_of v.
Proof.
  intros Hs.
  assert (Hp : printable v).
  { destruct v; try (eexists; reflexivity); now exists s. }
  split; [exact Hp|]; rewrite (normalize_printable v Hp) in Hs; congruence.
Qed.

Lemma printable_PyStr s : printable (PyStr s).
Proof. now exists s. Qed.

(** [str(10 ** 4300)] raises. *)
Lemma str_int_limit_raises : str (PyInt int_str_limit) = Raise ValueError.
Proof. vm_compute; reflexivity. Qed.

(** The integers that [str] prints. *)
Lemma printable_PyInt n : printable (PyInt n) <-> Z.abs n < int_str_limit.
Proof.
  unfold printable; simpl; unfold str_int.
  destruct (int_str_limit <=? Z.abs n) eqn:E; split.
  - intros (s & Hs); discriminate.
  - intros H; apply Z.leb_le in E; exfalso; apply (Z.lt_irrefl (Z.abs n)).
    eapply Z.lt_le_trans; eassumption.
  - intros _; now apply Z.leb_gt.
  - intros _; eexists; reflexivity.
Qed.

Lemma str_int_small i :
  0 <= i < int_str_limit -> str_int i = Ok (decimal i).
Proof.
  intros [H0 Hi]; unfold str_int.
  destruct (int_str_limit <=? Z.abs i) eqn:E; [|reflexivity].
  apply Z.leb_le in E; rewrite Z.abs_eq in E by assumption.
  exfalso; apply (Z.lt_irrefl i); eapply Z.lt_le_trans; eassumption.
Qed.

(** A well-formed filter whose salts [0 .. num_hashes - 1] all print. *)
Definition bloom_ok (b : Bloom.BloomFilter) : Prop :=
  bloom_wf b /\ Bloom.num_hashes b <= int_str_limit.

Section BloomFacts.

Variable sha256 : string -> Z.

(** The position probed for the normalised string [s] and salt [i]. *)
Definition position (b : Bloom.BloomFilter) (s : string) (i : Z) : Z :=
  sha256 (s ++ decimal i) mod Bloom.size b.

Definition positions (b : Bloom.BloomFilter) (item : value) : list Z :=
  map (position b (norm_of item)) (range (Bloom.num_hashes b)).

Lemma position_range b s i :
  bloom_wf b -> 0 <= position b s i < len (Bloom.bit_array b).
Proof.
  intros [Hs Hl]; rewrite Hl; apply Z.mod_pos_bound, Hs.
Qed.

Lemma hashes_at_run b s i :
  bloom_wf b -> 0 <= i < int_str_limit ->
  Bloom._hashes_at sha256 s i b = (Ok (position b s i), b).
Proof.
  intros [Hs _] Hi; unfold Bloom._hashes_at, bind, get, lift.
  rewrite (str_int_small i Hi); unfold py_mod.
  destruct (Bloom.size b =? 0) eqn:E; [lia|reflexivity].
Qed.

Lemma with_bit_array_wf b l :
  bloom_wf b -> len l = len (Bloom.bit_array b) ->
  bloom_wf (Bloom.with_bit_array b l).
Proof. intros [Hs Hl] H; split; simpl; congruence. Qed.

(** The body of the loop of [add], and of the generator inside
    [__contains__]. *)
Definition add_body (s : string) (i : Z) : M Bloom.BloomFilter unit :=
  pos <- Bloom._hashes_at sha256 s i ;;
  self <- get ;;
  l <- lift (setitem (Bloom.bit_array self) pos 1) ;;
  put (Bloom.with_bit_array self l).

Definition probe (s : string) (i : Z) : M Bloom.BloomFilter bool :=
  pos <- Bloom._hashes_at sha256 s i ;;
  self <- get ;;
  v <- lift (getitem (Bloom.bit_array self) pos) ;;
  ret (negb (v =? 0)).

Lemma add_unfold item b :
  Bloom.add sha256 item b
  = match Bloom._normalize item with
    | Ok s => for_ (range (Bloom.num_hashes b)) (add_body s) b
    | Raise e => (Raise e, b)
    end.
Proof.
  unfold Bloom.add, bind at 1, lift at 1.
  destruct (Bloom._normalize item); reflexivity.
Qed.

Lemma contains_unfold item b :
  Bloom.__contains__ sha256 item b
  = match Bloom._normalize item with
    | Ok s => all_ (range (Bloom.num_hashes b)) (probe s) b
    | Raise e => (Raise e, b)
    end.
Proof.
  unfold Bloom.__contains__, bind at 1, lift at 1.
  destruct (Bloom._normalize item); reflexivity.
Qed.

Lemma add_body_run s i b :
  bloom_wf b -> 0 <= i < int_str_limit ->
  add_body s i b
  = (Ok tt,
     Bloom.with_bit_array b
       (set_nth (Z.to_nat (position b s i)) 1 (Bloom.bit_array b))).
Proof.
  intros Hwf Hi; unfold add_body, bind.
  rewrite (hashes_at_run b s i Hwf Hi); unfold get, lift, setitem.
  now rewrite (index_of_in_range _ _ (position_range b s i Hwf)).
Qed.

Lemma add_loop_run s idxs b :
  bloom_wf b ->
  (forall i, In i idxs -> 0 <= i < int_str_limit) ->
  for_ idxs (add_body s) b
  = (Ok tt,
     Bloom.with_bit_array b
       (set_bits (map (position b s) idxs) (Bloom.bit_array b))).
Proof.
  revert b; induction idxs as [|i idxs IH]; intros b Hwf Hidx.
  - destruct b; reflexivity.
  - cbn [for_]; unfold bind.
    rewrite (add_body_run s i b Hwf) by (apply Hidx; now left).
    rewrite IH.
    + reflexivity.
    + apply with_bit_array_wf; [assumption|apply len_set_nth].
    + intros j Hj; apply Hidx; now right.
Qed.

Lemma salts_in_range b i :
  bloom_ok b -> In i (range (Bloom.num_hashes b)) -> 0 <= i < int_str_limit.
Proof.
  intros [_ Hk] Hi; apply range_in in Hi; split; [apply Hi|].
  eapply Z.lt_le_trans; [apply Hi|exact Hk].
Qed.

Lemma bloom_add_run b item :
  bloom_ok b -> printable item ->
  Bloom.add sha256 item b
  = (Ok tt,
     Bloom.with_bit_array b (set_bits (positions b item) (Bloom.bit_array b))).
Proof.
  intros Hok Hp; rewrite add_unfold, (normalize_printable item Hp).
  apply add_loop_run; [apply Hok|intros i; apply salts_in_range, Hok].
Qed.

Lemma bloom_add_wf b item :
  bloom_ok b -> printable item -> bloom_ok (snd (Bloom.add sha256 item b)).
Proof.
  intros Hok Hp; rewrite bloom_add_run by assumption; simpl.
  split; [|apply Hok].
  apply with_bit_array_wf; [apply Hok|apply set_bits_length].
Qed.

Lemma probe_run s i b :
  bloom_wf b -> 0 <= i < int_str_limit ->
  probe s i b = (Ok (bit_set (Bloom.bit_array b) (position b s i)), b).
Proof.
  intros Hwf Hi; unfold probe, bind.
  rewrite (hashes_at_run b s i Hwf Hi); unfold get, lift, getitem.
  pose proof (position_range b s i Hwf) as Hr.
  rewrite (index_of_in_range _ _ Hr); unfold bit_set.
  destruct (nth_error (Bloom.bit_array b) (Z.to_nat (position b s i)))
    as [v|] eqn:E; [reflexivity|].
  apply nth_error_None in E; unfold len in Hr; lia.
Qed.

Lemma contains_loop_run s idxs b :
  bloom_wf b ->
  (forall i, In i idxs -> 0 <= i < int_str_limit) ->
  all_ idxs (probe s) b
  = (Ok (forallb (bit_set (Bloom.bit_array b)) (map (position b s) idxs)), b).
Proof.
  intros Hwf; induction idxs as [|i idxs IH]; intros Hidx; [reflexivity|].
  cbn [all_ map forallb]; unfold bind.
  rewrite (probe_run s i b Hwf) by (apply Hidx; now left).
  destruct (bit_set _ _); [|reflexivity].
  apply IH; intros j Hj; apply Hidx; now right.
Qed.

(** On a well-formed filter [__contains__] returns for an item that
    prints, and tells whether every probed bit is set. *)
Lemma contains_run b item :
  bloom_ok b -> printable item ->
  Bloom.__contains__ sha256 item b
  = (Ok (forallb (bit_set (Bloom.bit_array b)) (positions b item)), b).
Proof.
  intros Hok Hp; rewrite contains_unfold, (normalize_printable item Hp).
  apply contains_loop_run; [apply Hok|intros i; apply salts_in_range, Hok].
Qed.

Lemma positions_in_range b item q :
  bloom_wf b -> In q (positions b item) -> 0 <= q < len (Bloom.bit_array b).
Proof.
  intros Hwf Hin; apply in_map_iff in Hin as (i & <- & _).
  apply position_range, Hwf.
Qed.

(** [add] never assigns [size] or [num_hashes], whatever happens. *)
Lemma add_body_keeps_parameters s i b :
  Bloom.size (snd (add_body s i b)) = Bloom.size b /\
  Bloom.num_hashes (snd (add_body s i b)) = Bloom.num_hashes b.
Proof.
  unfold add_body, Bloom._hashes_at, bind, get, lift, put.
  destruct (str_int i); [|now split].
  destruct (py_mod _ _); [|now split].
  destruct (setitem _ _ _); now split.
Qed.

Lemma add_keeps_parameters item b :
  Bloom.size (snd (Bloom.add sha256 item b)) = Bloom.size b /\
  Bloom.num_hashes (snd (Bloom.add sha256 item b)) = Bloom.num_hashes b.
Proof.
  rewrite add_unfold.
  destruct (Bloom._normalize item) as [s|e]; [|now split].
  generalize (range (Bloom.num_hashes b)).
  intros idxs; revert b; induction idxs as [|i idxs IH]; intros b;
    [now split|].
  cbn [for_]; unfold bind.
  destruct (add_body_keeps_parameters s i b) as [H1 H2].
  destruct (add_body s i b) as [[[]|e] b1]; simpl in H1, H2; [|now split].
  destruct (IH b1) as [H3 H4]; split; congruence.
Qed.

Lemma positions_after_add b item x :
  positions (snd (Bloom.add sha256 item b)) x = positions b x.
Proof.
  destruct (add_keeps_parameters item b) as [H1 H2].
  unfold positions, position; now rewrite H1, H2.
Qed.

(** Every bit probed for [x] is set: what [__contains__] computes. *)
Definition member (b : Bloom.BloomFilter) (x : value) : bool :=
  forallb (bit_set (Bloom.bit_array b)) (positions b x).

Lemma add_member b x :
  bloom_ok b -> printable x -> member (snd (Bloom.add sha256 x b)) x = true.
Proof.
  intros Hok Hp; unfold member; rewrite positions_after_add.
  rewrite bloom_add_run by assumption; simpl.
  apply forallb_forall; intros q Hq.
  apply set_bits_sets; [assumption|].
  eapply positions_in_range; [apply Hok|eassumption].
Qed.

Lemma add_keeps_member b y x :
  bloom_ok b -> printable y ->
  member b x = true -> member (snd (Bloom.add sha256 y b)) x = true.
Proof.
  intros Hok Hp Hm; unfold member in *; rewrite positions_after_add.
  rewrite bloom_add_run by assumption; simpl.
  rewrite forallb_forall in *; intros q Hq.
  apply set_bits_keeps, Hm, Hq.
Qed.

(** A run of [add] calls with items that print, on a well-formed filter,
    returns, keeps the filter well formed, keeps what was a member, and
    makes every added item one. *)
Lemma adds_run items b :
  bloom_ok b -> Forall printable items ->
  exists b',
    for_ items (Bloom.add sha256) b = (Ok tt, b') /\
    bloom_ok b' /\
    (forall x, member b x = true -> member b' x = true) /\
    (forall x, In x items -> member b' x = true).
Proof.
  revert b; induction items as [|y items IH]; intros b Hok Hall.
  - exists b; split; [reflexivity|split; [exact Hok|split; [auto|intros x []]]].
  - inversion Hall as [|? ? Hy Hrest]; subst.
    pose proof (bloom_add_run b y Hok Hy) as Hadd.
    destruct (IH (snd (Bloom.add sha256 y b)) (bloom_add_wf b y Hok Hy) Hrest)
      as (b' & Hrun & Hok' & Hkeep & Hin).
    exists b'; split; [|split; [exact Hok'|split]].
    + cbn [for_]; unfold bind; rewrite Hadd in Hrun |- *; exact Hrun.
    + intros x Hx; apply Hkeep, add_keeps_member; assumption.
    + intros x [->|Hx]; [apply Hkeep, add_member; assumption|apply Hin, Hx].
Qed.

End BloomFacts.

Lemma bloom_init_ok size k :
  0 < size -> 0 < k ->
  Bloom.__init__ size k
  = Ok (Bloom.mkBloomFilter size k (repeat 0 (Z.to_nat size))).
Proof.
  intros Hs Hk; unfold Bloom.__init__.
  destruct (size <=? 0) eqn:E1; [lia|].
  destruct (k <=? 0) eqn:E2; [lia|reflexivity].
Qed.

Lemma bloom_init_wf size k b :
  Bloom.__init__ size k = Ok b -> bloom_wf b.
Proof.
  unfold Bloom.__init__.
  destruct (size <=? 0) eqn:E1; [discriminate|].
  destruct (k <=? 0) eqn:E2; [discriminate|].
  intros [= <-]; split; simpl; [lia|apply len_repeat; lia].
Qed.

Lemma bloom_init_good size k :
  0 < size -> 0 < k -> k <= int_str_limit ->
  bloom_ok (Bloom.mkBloomFilter size k (repeat 0 (Z.to_nat size))).
Proof.
  intros Hs Hk Hlim; split; [|exact Hlim].
  eapply bloom_init_wf, bloom_init_ok; assumption.
Qed.

(** C1 (no false negatives).  On a filter built with [size > 0] and
    [num_hashes > 0], after any finite sequence of [add] calls, the
    membership test [__contains__] returns [True] for every item that
    occurs in the sequence.  The calls return where [str] does: on items
    that print, with salts [0 .. num_hashes - 1] that print. *)
Theorem no_false_negatives (sha256 : string -> Z) (size k : Z)
    (items : list value) (x : value) :
  0 < size -> 0 < k -> k <= int_str_limit ->
  Forall printable items -> In x items ->
  exists b0 b,
    Bloom.__init__ size k = Ok b0 /\
    for_ items (Bloom.add sha256) b0 = (Ok tt, b) /\
    Bloom.__contains__ sha256 x b = (Ok true, b).
Proof.
  intros Hs Hk Hlim Hall Hx.
  pose proof (bloom_init_ok size k Hs Hk) as Hinit.
  destruct (adds_run sha256 items _ (bloom_init_good size k Hs Hk Hlim) Hall)
    as (b & Hrun & Hok & _ & Hin).
  eexists; exists b; repeat split; [exact Hinit|exact Hrun|].
  rewrite contains_run;
    [|assumption|now apply (proj1 (Forall_forall _ _) Hall)].
  specialize (Hin x Hx); unfold member in Hin; now rewrite Hin.
Qed.

Lemma set_nth_id {A} (n : nat) (v : A) (l : list A) :
  nth_error l n = Some v -> set_nth n v l = l.
Proof.
  revert n; induction l as [|h t IH]; intros [|n] H; simpl in *;
    try discriminate.
  - now inversion H.
  - now rewrite IH.
Qed.

Lemma set_nth_In {A} (n : nat) (v x : A) (l : list A) :
  In x (set_nth n v l) -> x = v \/ In x l.
Proof.
  revert n; induction l as [|h t IH]; intros [|n] H; simpl in *; auto.
  - destruct H as [<-|H]; auto.
  - destruct H as [<-|H]; auto.
    destruct (IH _ H); auto.
Qed.

(** Pointwise order on register arrays of the same length. *)
Definition registers_le (l l' : list Z) : Prop := Forall2 Z.le l l'.

Lemma registers_le_refl l : registers_le l l.
Proof. induction l; constructor; [lia|assumption]. Qed.

Lemma registers_le_trans l1 l2 l3 :
  registers_le l1 l2 -> registers_le l2 l3 -> registers_le l1 l3.
Proof.
  intros H12; revert l3; induction H12 as [|x y l l' Hxy _ IH]; intros l3 H23.
  - inversion H23; constructor.
  - inversion H23 as [|y' z l2' l3' Hyz Hrest]; subst.
    constructor; [lia|apply IH, Hrest].
Qed.

Lemma registers_le_set_nth n v l :
  nth n l 0 <= v -> registers_le l (set_nth n v l).
Proof.
  revert n; induction l as [|h t IH]; intros [|n] Hv; simpl in *.
  - constructor.
  - constructor.
  - constructor; [assumption|apply registers_le_refl].
  - constructor; [lia|apply IH, Hv].
Qed.

(** ** HyperLogLog: the registers *)

(** What [__init__] establishes and [add] keeps. *)
Definition hll_wf (h : HLL.HyperLogLog) : Prop :=
  4 <= HLL.p h <= 16 /\
  HLL.m h = 2 ^ HLL.p h /\
  len (HLL.registers h) = HLL.m h.

(** [_rho] as a function of [p] and [w]. *)
Definition rho_of (p w : Z) : Z :=
  if w =? 0 then HLL.MAX_BITS - p + 1
  else HLL.MAX_BITS - p - bit_length w + 1.

(** The number of zero bits of [w] above its highest set bit, when [w] is
    read as a field of [n] bits: bits [n-1], [n-2], ... are inspected until
    one is set. *)
Fixpoint leading_zeros (n : nat) (w : Z) : Z :=
  match n with
  | O => 0
  | S n' => if Z.testbit w (Z.of_nat n') then 0 else 1 + leading_zeros n' w
  end.

Lemma testbit_top (n w : Z) :
  0 <= n -> 0 <= w < 2 ^ (n + 1) ->
  Z.testbit w n = (2 ^ n <=? w).
Proof.
  intros Hn Hw.
  rewrite Z.testbit_eqb by assumption.
  assert (Hp : 0 < 2 ^ n) by (apply Z.pow_pos_nonneg; lia).
  rewrite Z.pow_add_r, Z.pow_1_r in Hw by lia.
  destruct (2 ^ n <=? w) eqn:E.
  - apply Z.leb_le in E.
    replace (w / 2 ^ n) with 1; [reflexivity|].
    apply Z.div_unique with (r := w - 2 ^ n); lia.
  - apply Z.leb_gt in E.
    rewrite Z.div_small by lia; reflexivity.
Qed.

Lemma leading_zeros_zero n : leading_zeros n 0 = Z.of_nat n.
Proof.
  induction n as [|n IH]; [reflexivity|].
  cbn [leading_zeros]; rewrite Z.testbit_0_l, IH; lia.
Qed.

Lemma leading_zeros_bit_length (n : nat) (w : Z) :
  0 < w < 2 ^ Z.of_nat n ->
  leading_zeros n w = Z.of_nat n - bit_length w.
Proof.
  induction n as [|n IH]; intros Hw.
  - simpl in Hw; lia.
  - cbn [leading_zeros].
    assert (Hn : 0 <= Z.of_nat n) by lia.
    rewrite testbit_top by (try assumption;
      replace (Z.of_nat n + 1) with (Z.of_nat (S n)) by lia; lia).
    unfold bit_length in *.
    destruct (w =? 0) eqn:E0; [lia|].
    rewrite Z.abs_eq in * by lia.
    destruct (2 ^ Z.of_nat n <=? w) eqn:E.
    + apply Z.leb_le in E.
      assert (Z.log2 w = Z.of_nat n); [|lia].
      apply Z.log2_unique; [lia|].
      replace (Z.of_nat n + 1) with (Z.of_nat (S n)) by lia; lia.
    + apply Z.leb_gt in E; rewrite IH by lia; lia.
Qed.

(** [_rho] is one more than the number of leading zeros of the field. *)
Lemma rho_of_leading_zeros p w :
  p <= HLL.MAX_BITS -> 0 <= w < 2 ^ (HLL.MAX_BITS - p) ->
  rho_of p w = 1 + leading_zeros (Z.to_nat (HLL.MAX_BITS - p)) w.
Proof.
  intros Hp Hw; unfold rho_of.
  destruct (w =? 0) eqn:E.
  - apply Z.eqb_eq in E; subst w; rewrite leading_zeros_zero; lia.
  - apply Z.eqb_neq in E.
    rewrite leading_zeros_bit_length by (rewrite Z2Nat.id; lia); lia.
Qed.

Lemma rho_of_bounds p w :
  p <= HLL.MAX_BITS -> 0 <= w < 2 ^ (HLL.MAX_BITS - p) ->
  1 <= rho_of p w <= HLL.MAX_BITS - p + 1.
Proof.
  intros Hp Hw; unfold rho_of, bit_length.
  destruct (w =? 0) eqn:E; [lia|].
  apply Z.eqb_neq in E; rewrite Z.abs_eq by lia.
  assert (Z.log2 w < HLL.MAX_BITS - p) by (apply Z.log2_lt_pow2; lia).
  pose proof (Z.log2_nonneg w); lia.
Qed.

Section HLLFacts.

Variable sha1 : string -> Z.

(** The 64-bit hash of an item, its register index and its value field. *)
Definition hash64 (v : value) : Z :=
  Z.land (sha1 (str_of v)) (Z.shiftl 1 HLL.MAX_BITS - 1).

Definition reg_index (p : Z) (v : value) : Z :=
  Z.shiftr (hash64 v) (HLL.MAX_BITS - p).

Definition reg_field (p : Z) (v : value) : Z :=
  Z.land (hash64 v) (Z.shiftl 1 (HLL.MAX_BITS - p) - 1).

Lemma land_low_bits x n : 0 <= n -> Z.land x (Z.shiftl 1 n - 1) = x mod 2 ^ n.
Proof.
  intros Hn; rewrite <- Z.land_ones by assumption.
  now rewrite Z.sub_1_r.
Qed.

Lemma hash64_range v : 0 <= hash64 v < 2 ^ 64.
Proof.
  unfold hash64, HLL.MAX_BITS; rewrite land_low_bits by lia.
  apply Z.mod_pos_bound; lia.
Qed.

(** The hash is the index followed by the field. *)
Lemma hash_split p v :
  0 <= p <= HLL.MAX_BITS ->
  0 <= reg_index p v < 2 ^ p /\
  0 <= reg_field p v < 2 ^ (HLL.MAX_BITS - p) /\
  hash64 v = reg_index p v * 2 ^ (HLL.MAX_BITS - p) + reg_field p v.
Proof.
  intros Hp; unfold reg_index, reg_field.
  pose proof (hash64_range v) as Hx.
  set (x := hash64 v) in *; set (bits := HLL.MAX_BITS - p).
  assert (Hbits : 0 <= bits) by (subst bits; lia).
  assert (Hpow : 0 < 2 ^ bits) by (apply Z.pow_pos_nonneg; lia).
  rewrite land_low_bits, Z.shiftr_div_pow2 by assumption.
  repeat split.
  - apply Z.div_pos; lia.
  - apply Z.div_lt_upper_bound; [assumption|].
    rewrite <- Z.pow_add_r by lia.
    replace (bits + p) with 64 by (subst bits; unfold HLL.MAX_BITS; lia); lia.
  - apply Z.mod_pos_bound; assumption.
  - apply Z.mod_pos_bound; assumption.
  - rewrite Z.mul_comm; apply Z.div_mod; lia.
Qed.

Lemma hll_hash_run v h :
  printable v -> HLL._hash sha1 v h = (Ok (hash64 v), h).
Proof.
  intros Hv; unfold HLL._hash, bind, lift; now rewrite (str_printable v Hv).
Qed.

Lemma hll_rho_run w h : HLL._rho w h = (Ok (rho_of (HLL.p h) w), h).
Proof.
  unfold HLL._rho, rho_of, bind, get.
  destruct (w =? 0); reflexivity.
Qed.

(** The registers after [add value]. *)
Definition updated (h : HLL.HyperLogLog) (v : value) : list Z :=
  let idx := Z.to_nat (reg_index (HLL.p h) v) in
  let rho := rho_of (HLL.p h) (reg_field (HLL.p h) v) in
  if rho >? nth idx (HLL.registers h) 0
  then set_nth idx rho (HLL.registers h)
  else HLL.registers h.

Lemma hll_add_run v h :
  hll_wf h -> printable v ->
  HLL.add sha1 v h = (Ok tt, HLL.with_registers h (updated h v)).
Proof.
  intros (Hp & Hm & Hl) Hv.
  destruct (hash_split (HLL.p h) v) as (Hi & _ & _);
    [unfold HLL.MAX_BITS; lia|].
  unfold HLL.add, bind at 1; rewrite hll_hash_run by assumption.
  unfold bind at 1, get at 1, bind at 1, lift at 1, HLL.py_rshift.
  destruct (HLL.MAX_BITS - HLL.p h <? 0) eqn:E;
    [unfold HLL.MAX_BITS in E; lia|].
  unfold bind at 1, lift at 1, HLL.py_lshift; rewrite E.
  unfold bind at 1; rewrite hll_rho_run.
  unfold bind at 1, get at 1, bind at 1, lift at 1, getitem.
  fold (reg_index (HLL.p h) v) (reg_field (HLL.p h) v).
  rewrite index_of_in_range by (rewrite Hl, Hm; assumption).
  destruct (nth_error (HLL.registers h) (Z.to_nat (reg_index (HLL.p h) v)))
    as [r|] eqn:En.
  - unfold updated; rewrite (nth_error_nth _ _ 0 En).
    destruct (_ >? r).
    + unfold bind, lift, setitem, put.
      rewrite index_of_in_range by (rewrite Hl, Hm; assumption).
      reflexivity.
    + destruct h; reflexivity.
  - apply nth_error_None in En; unfold len in Hl; lia.
Qed.

Lemma updated_length h v : len (updated h v) = len (HLL.registers h).
Proof. unfold updated; destruct (_ >? _); [apply len_set_nth|reflexivity]. Qed.

Lemma hll_add_wf v h : hll_wf h -> hll_wf (HLL.with_registers h (updated h v)).
Proof.
  intros (Hp & Hm & Hl); repeat split; simpl; try assumption; try lia.
  now rewrite updated_length.
Qed.

Lemma updated_twice h v :
  hll_wf h -> updated (HLL.with_registers h (updated h v)) v = updated h v.
Proof.
  intros (Hp & Hm & Hl).
  destruct (hash_split (HLL.p h) v) as (Hi & _ & _);
    [unfold HLL.MAX_BITS; lia|].
  unfold updated at 1; cbn [HLL.p HLL.registers HLL.with_registers].
  set (idx := Z.to_nat (reg_index (HLL.p h) v)).
  set (rho := rho_of (HLL.p h) (reg_field (HLL.p h) v)).
  assert (Hidx : (idx < List.length (HLL.registers h))%nat)
    by (unfold len in Hl; subst idx; lia).
  unfold updated; fold idx rho.
  destruct (rho >? nth idx (HLL.registers h) 0) eqn:E.
  - rewrite (nth_error_nth _ _ 0 (set_nth_same idx rho _ Hidx)).
    destruct (rho >? rho) eqn:E'; [lia|reflexivity].
  - now rewrite E.
Qed.

End HLLFacts.

Section HLLRuns.

Variable sha1 : string -> Z.

(** The bound of the register invariant. *)
Definition bounded (p : Z) (l : list Z) : Prop :=
  Forall (fun r => 0 <= r <= HLL.MAX_BITS - p + 1) l.

Lemma updated_le h v : registers_le (HLL.registers h) (updated sha1 h v).
Proof.
  unfold updated; destruct (_ >? _) eqn:E; [|apply registers_le_refl].
  apply registers_le_set_nth; lia.
Qed.

Lemma updated_bounded h v :
  hll_wf h -> bounded (HLL.p h) (HLL.registers h) ->
  bounded (HLL.p h) (updated sha1 h v).
Proof.
  intros (Hp & _) Hb; unfold updated.
  destruct (_ >? _); [|assumption].
  destruct (hash_split sha1 (HLL.p h) v) as (_ & Hw & _);
    [unfold HLL.MAX_BITS; lia|].
  pose proof (rho_of_bounds (HLL.p h) _ ltac:(unfold HLL.MAX_BITS; lia) Hw).
  unfold bounded in *; rewrite Forall_forall in *; intros r Hr.
  apply set_nth_In in Hr as [->|Hr]; [lia|apply Hb, Hr].
Qed.

(** A run of [add] calls on a well-formed estimator returns; the registers
    only grow, and stay within the bound if they were within it. *)
Lemma hll_adds_run items h :
  hll_wf h -> Forall printable items ->
  exists h',
    for_ items (HLL.add sha1) h = (Ok tt, h') /\
    hll_wf h' /\ HLL.p h' = HLL.p h /\
    registers_le (HLL.registers h) (HLL.registers h') /\
    (bounded (HLL.p h) (HLL.registers h) ->
     bounded (HLL.p h) (HLL.registers h')).
Proof.
  revert h; induction items as [|v items IH]; intros h Hwf Hall.
  - exists h; repeat split; auto; try apply Hwf; apply registers_le_refl.
  - inversion Hall as [|? ? Hv Hrest]; subst.
    destruct (IH _ (hll_add_wf sha1 v h Hwf) Hrest)
      as (h' & Hrun & Hwf' & Hp & Hle & Hb).
    exists h'; cbn [for_]; unfold bind.
    rewrite (hll_add_run sha1 v h Hwf Hv).
    split; [exact Hrun|split; [exact Hwf'|split; [exact Hp|split]]].
    + eapply registers_le_trans; [apply updated_le|exact Hle].
    + intros H; simpl in Hb; apply Hb, updated_bounded; assumption.
Qed.

End HLLRuns.

Lemma hll_init_ok p :
  4 <= p <= 16 ->
  HLL.__init__ p
  = Ok (HLL.mkHyperLogLog p (Z.shiftl 1 p) (repeat 0 (Z.to_nat (Z.shiftl 1 p)))).
Proof.
  intros Hp; unfold HLL.__init__.
  destruct (4 <=? p) eqn:E1; [|lia].
  destruct (p <=? 16) eqn:E2; [reflexivity|lia].
Qed.

Lemma hll_init_wf p h : HLL.__init__ p = Ok h -> hll_wf h.
Proof.
  unfold HLL.__init__.
  destruct (4 <=? p) eqn:E1; [|discriminate].
  destruct (p <=? 16) eqn:E2; [|discriminate].
  apply Z.leb_le in E1, E2; intros [= <-].
  unfold hll_wf; cbn [HLL.p HLL.m HLL.registers].
  assert (0 <= Z.shiftl 1 p) by (apply Z.shiftl_nonneg; lia).
  split; [lia|split; [apply Z.shiftl_1_l|apply len_repeat; assumption]].
Qed.

(** C5 (the update rule of [add]).  The 64-bit hash [x] of the item is the
    register index [idx] (its top [p] bits) followed by the field [w] (its
    remaining [64 - p] bits); [_rho w] is one more than the number of
    leading zero bits of [w] read as a [(64 - p)]-bit field, which is
    [(64 - p) + 1] when [w = 0]; and [add] returns after storing the
    maximum of the old register and that value at [idx], leaving [p], [m]
    and every other register as they were.  This is for an item on which
    [str] returns; otherwise [_hash] raises before anything is written. *)
Theorem add_register_update (sha1 : string -> Z) (h : HLL.HyperLogLog)
    (v : value) :
  hll_wf h -> printable v ->
  let bits := HLL.MAX_BITS - HLL.p h in
  exists x idx w r h',
    HLL._hash sha1 v h = (Ok x, h) /\ 0 <= x < 2 ^ HLL.MAX_BITS /\
    0 <= idx < 2 ^ HLL.p h /\ 0 <= w < 2 ^ bits /\
    x = idx * 2 ^ bits + w /\
    HLL._rho w h = (Ok (1 + leading_zeros (Z.to_nat bits) w), h) /\
    (w = 0 -> 1 + leading_zeros (Z.to_nat bits) w = bits + 1) /\
    getitem (HLL.registers h) idx = Ok r /\
    HLL.add sha1 v h = (Ok tt, h') /\
    HLL.p h' = HLL.p h /\ HLL.m h' = HLL.m h /\
    HLL.registers h'
    = set_nth (Z.to_nat idx)
        (Z.max r (1 + leading_zeros (Z.to_nat bits) w)) (HLL.registers h) /\
    (forall j, j <> Z.to_nat idx ->
       nth_error (HLL.registers h') j = nth_error (HLL.registers h) j).
Proof.
  intros Hwf Hv bits.
  pose proof Hwf as (Hp & Hm & Hl).
  assert (Hp64 : 0 <= HLL.p h <= HLL.MAX_BITS) by (unfold HLL.MAX_BITS; lia).
  destruct (hash_split sha1 (HLL.p h) v Hp64) as (Hi & Hw & Hx).
  fold bits in Hw, Hx.
  set (idx := reg_index sha1 (HLL.p h) v) in *.
  set (w := reg_field sha1 (HLL.p h) v) in *.
  assert (Hrho : rho_of (HLL.p h) w = 1 + leading_zeros (Z.to_nat bits) w)
    by (apply rho_of_leading_zeros; [lia|exact Hw]).
  assert (Hn : (Z.to_nat idx < List.length (HLL.registers h))%nat)
    by (unfold len in Hl; lia).
  destruct (nth_error (HLL.registers h) (Z.to_nat idx)) as [r|] eqn:En;
    [|apply nth_error_None in En; lia].
  assert (Hreg : updated sha1 h v
                 = set_nth (Z.to_nat idx) (Z.max r (rho_of (HLL.p h) w))
                     (HLL.registers h)).
  { unfold updated; fold idx w; rewrite (nth_error_nth _ _ 0 En).
    destruct (rho_of (HLL.p h) w >? r) eqn:E.
    - now rewrite Z.max_r by lia.
    - rewrite Z.max_l by lia; symmetry; now apply set_nth_id. }
  exists (hash64 sha1 v), idx, w, r, (HLL.with_registers h (updated sha1 h v)).
  split; [apply hll_hash_run, Hv|].
  split; [apply hash64_range|].
  split; [exact Hi|split; [exact Hw|split; [exact Hx|]]].
  split; [rewrite hll_rho_run, Hrho; reflexivity|].
  split; [intros ->; rewrite leading_zeros_zero, Z2Nat.id; lia|].
  split.
  { unfold getitem; rewrite index_of_in_range by (rewrite Hl, Hm; exact Hi).
    now rewrite En. }
  split; [apply hll_add_run; assumption|].
  split; [reflexivity|split; [reflexivity|]].
  cbn [HLL.registers HLL.with_registers]; rewrite Hreg, Hrho.
  split; [reflexivity|].
  intros j Hj; apply set_nth_other; congruence.
Qed.

(** C7 (register invariant).  For a precision in [[4, 16]], along any
    sequence of [add] calls the registers never decrease (the state after
    [items ++ more] dominates the state after [items], register by
    register), and every register stays between 0 and [(64 - p) + 1].
    The calls return on items on which [str] returns. *)
Theorem register_invariant (sha1 : string -> Z) (p : Z)
    (items more : list value) :
  4 <= p <= 16 -> Forall printable items -> Forall printable more ->
  exists h0 h h',
    HLL.__init__ p = Ok h0 /\
    for_ items (HLL.add sha1) h0 = (Ok tt, h) /\
    for_ more (HLL.add sha1) h = (Ok tt, h') /\
    registers_le (HLL.registers h) (HLL.registers h') /\
    bounded p (HLL.registers h) /\ bounded p (HLL.registers h').
Proof.
  intros Hp Hitems Hmore.
  pose proof (hll_init_ok p Hp) as Hinit.
  pose proof (hll_init_wf _ _ Hinit) as Hwf0.
  destruct (hll_adds_run sha1 items _ Hwf0 Hitems)
    as (h & Hrun & Hwf & Hph & _ & Hb).
  destruct (hll_adds_run sha1 more _ Hwf Hmore)
    as (h' & Hrun' & _ & _ & Hle & Hb').
  cbn [HLL.p HLL.registers] in Hph, Hb.
  assert (Hbh : bounded p (HLL.registers h)).
  { apply Hb; unfold bounded; apply Forall_forall; intros r Hr.
    apply repeat_spec in Hr; subst r; unfold HLL.MAX_BITS; lia. }
  eexists; exists h, h'.
  split; [exact Hinit|split; [exact Hrun|split; [exact Hrun'|]]].
  split; [exact Hle|split; [exact Hbh|]].
  rewrite Hph in Hb'; apply Hb', Hbh.
Qed.

(** C8 (idempotent [add]).  On either sketch, a second [add] of the same
    item right after the first returns and leaves the whole object, hence
    [bit_array] resp. [registers], exactly as the first left it.  The
    calls return where [str] does: on an item that prints and, for the
    filter, with salts that print. *)
Theorem add_idempotent (sha256 sha1 : string -> Z) (b : Bloom.BloomFilter)
    (h : HLL.HyperLogLog) (x : value) :
  bloom_wf b -> Bloom.num_hashes b <= int_str_limit -> hll_wf h ->
  printable x ->
  (exists b1, Bloom.add sha256 x b = (Ok tt, b1) /\
              Bloom.add sha256 x b1 = (Ok tt, b1)) /\
  (exists h1, HLL.add sha1 x h = (Ok tt, h1) /\
              HLL.add sha1 x h1 = (Ok tt, h1)).
Proof.
  intros Hb Hk Hh Hx; split.
  - assert (Hok : bloom_ok b) by (split; assumption).
    eexists; split; [apply bloom_add_run; assumption|].
    pose proof (bloom_add_wf sha256 b x Hok Hx) as Hok1.
    rewrite bloom_add_run in Hok1 by assumption; simpl in Hok1.
    rewrite bloom_add_run by assumption.
    unfold Bloom.with_bit_array; cbn [Bloom.size Bloom.num_hashes Bloom.bit_array].
    unfold positions, position; cbn [Bloom.size Bloom.num_hashes].
    now rewrite set_bits_twice.
  - eexists; split; [apply hll_add_run; assumption|].
    rewrite hll_add_run by (try apply hll_add_wf; assumption).
    rewrite updated_twice by assumption.
    reflexivity.
Qed.

(** ** Construction *)

(** C9 (construction validation).  [BloomFilter(size, num_hashes)] raises
    [ValueError] exactly when [size <= 0] or [num_hashes <= 0], and
    [HyperLogLog(p)] raises it exactly when [p] is outside [[4, 16]]; a
    failed construction yields the exception and no object; a successful
    one yields a filter whose [size] bits are all 0, resp. an estimator
    whose [2^p] registers are all 0. *)
Theorem construction_validation (size num_hashes p : Z) :
  (Bloom.__init__ size num_hashes = Raise ValueError
   <-> size <= 0 \/ num_hashes <= 0) /\
  (forall b, Bloom.__init__ size num_hashes = Ok b
   <-> 0 < size /\ 0 < num_hashes /\
       b = Bloom.mkBloomFilter size num_hashes (repeat 0 (Z.to_nat size))) /\
  (HLL.__init__ p = Raise ValueError <-> p < 4 \/ 16 < p) /\
  (forall h, HLL.__init__ p = Ok h
   <-> 4 <= p <= 16 /\
       h = HLL.mkHyperLogLog p (2 ^ p) (repeat 0 (Z.to_nat (2 ^ p)))).
Proof.
  repeat split.
  - unfold Bloom.__init__.
    destruct (size <=? 0) eqn:E1; [lia|].
    destruct (num_hashes <=? 0) eqn:E2; [lia|discriminate].
  - unfold Bloom.__init__; intros [H|H].
    + destruct (size <=? 0) eqn:E1; [reflexivity|lia].
    + destruct (size <=? 0) eqn:E1; [reflexivity|].
      destruct (num_hashes <=? 0) eqn:E2; [reflexivity|lia].
  - unfold Bloom.__init__ in H.
    destruct (size <=? 0) eqn:E1; [discriminate|lia].
  - unfold Bloom.__init__ in H.
    destruct (size <=? 0) eqn:E1; [discriminate|].
    destruct (num_hashes <=? 0) eqn:E2; [discriminate|lia].
  - unfold Bloom.__init__ in H.
    destruct (size <=? 0) eqn:E1; [discriminate|].
    destruct (num_hashes <=? 0) eqn:E2; [discriminate|congruence].
  - intros (Hs & Hk & ->); apply bloom_init_ok; assumption.
  - unfold HLL.__init__.
    destruct (4 <=? p) eqn:E1; [|lia].
    destruct (p <=? 16) eqn:E2; [discriminate|lia].
  - unfold HLL.__init__; intros [H|H].
    + destruct (4 <=? p) eqn:E1; [lia|reflexivity].
    + destruct (4 <=? p) eqn:E1; [|reflexivity].
      destruct (p <=? 16) eqn:E2; [lia|reflexivity].
  - unfold HLL.__init__ in H.
    destruct (4 <=? p) eqn:E1; [lia|discriminate].
  - unfold HLL.__init__ in H.
    destruct (4 <=? p) eqn:E1; [|discriminate].
    destruct (p <=? 16) eqn:E2; [lia|discriminate].
  - assert (Hp : 4 <= p <= 16).
    { unfold HLL.__init__ in H.
      destruct (4 <=? p) eqn:E1; [|discriminate].
      destruct (p <=? 16) eqn:E2; [lia|discriminate]. }
    rewrite hll_init_ok, Z.shiftl_1_l in H by assumption; congruence.
  - intros (Hp & ->); rewrite hll_init_ok, Z.shiftl_1_l by assumption.
    reflexivity.
Qed.

(** ** Queries *)

Lemma readonly_hashes_at sha256 s i : readonly (Bloom._hashes_at sha256 s i).
Proof. unfold Bloom._hashes_at; repeat readonly_step. Qed.

Lemma readonly_contains sha256 item : readonly (Bloom.__contains__ sha256 item).
Proof.
  unfold Bloom.__contains__.
  apply readonly_bind; [apply readonly_lift|intros s].
  apply readonly_bind; [apply readonly_get|intros self].
  apply readonly_all; intros i.
  apply readonly_bind; [apply readonly_hashes_at|intros pos].
  repeat readonly_step.
Qed.

Lemma readonly_count : readonly HLL.count.
Proof.
  unfold HLL.count.
  apply readonly_bind; [apply readonly_get|intros self].
  apply readonly_bind; [apply readonly_lift|intros alpha].
  apply readonly_bind; [apply readonly_lift|intros E].
  apply readonly_bind.
  - destruct (Rle_dec _ _); [|apply readonly_ret].
    destruct (negb _); [|apply readonly_ret].
    repeat readonly_step.
  - intros E'; destruct (Rgt_dec _ _); [|apply readonly_ret].
    repeat readonly_step.
Qed.

(** C10 (queries never mutate).  Whatever the object and the item, and
    whether the call returns or raises, [__contains__] hands back the
    filter with [size], [num_hashes] and [bit_array] unchanged, and
    [count] hands back the estimator with [p], [m] and [registers]
    unchanged. *)
Theorem queries_do_not_mutate (sha256 : string -> Z) (item : value)
    (b : Bloom.BloomFilter) (h : HLL.HyperLogLog) :
  snd (Bloom.__contains__ sha256 item b) = b /\ snd (HLL.count h) = h.
Proof. split; [apply readonly_contains|apply readonly_count]. Qed.

(** ** HyperLogLog: the estimate *)

(** The formula of the estimate, step by step. *)

(** The bias constant. *)
Definition alpha (m : Z) : R :=
  if m =? 16 then 0.673
  else if m =? 32 then 0.697
  else if m =? 64 then 0.709
  else 0.7213 / (1 + 1.079 / IZR m).

(** [Z], the sum of [2^(-registers[j])] over all registers. *)
Definition Zsum (registers : list Z) : R :=
  fold_right (fun v acc => powerRZ 2 (- v) + acc)%R 0%R registers.

(** The raw estimate [alpha * m^2 / Z]. *)
Definition raw_estimate (h : HLL.HyperLogLog) : R :=
  (alpha (HLL.m h) * (IZR (HLL.m h) * IZR (HLL.m h))
   / Zsum (HLL.registers h))%R.

(** [V], the number of registers that are zero. *)
Definition zero_registers (registers : list Z) : Z :=
  Z.of_nat (count_occ Z.eq_dec registers 0).

(** Linear counting, [m * ln (m / V)]. *)
Definition linear_counting (h : HLL.HyperLogLog) : R :=
  (IZR (HLL.m h)
   * ln (IZR (HLL.m h) / IZR (zero_registers (HLL.registers h))))%R.

(** The small-range correction applies. *)
Definition small_range (h : HLL.HyperLogLog) : Prop :=
  (raw_estimate h <= 2.5 * IZR (HLL.m h))%R /\
  1 <= zero_registers (HLL.registers h).

(** The estimate after the small-range step. *)
Definition small_range_corrected (h : HLL.HyperLogLog) : R :=
  if Rle_dec (raw_estimate h) (2.5 * IZR (HLL.m h))
  then if 1 <=? zero_registers (HLL.registers h)
       then linear_counting h
       else raw_estimate h
  else raw_estimate h.

(** The threshold [2^32 / 30] and the constant [2^32] of the large-range
    step. *)
Definition two_32 : R := 4294967296.
Definition large_range_threshold : R := (two_32 / 30)%R.

Lemma harmonic_sum_from acc l :
  fold_left (fun a v => (a + powerRZ 2 (- v))%R) l acc = (acc + Zsum l)%R.
Proof.
  revert acc; induction l as [|v l IH]; intros acc; simpl.
  - lra.
  - rewrite IH; lra.
Qed.

Lemma harmonic_sum_Zsum l : HLL.harmonic_sum l = Zsum l.
Proof. unfold HLL.harmonic_sum; rewrite harmonic_sum_from; lra. Qed.

Lemma Zsum_nonneg l : (0 <= Zsum l)%R.
Proof.
  induction l as [|v l IH]; simpl; [lra|].
  pose proof (powerRZ_lt 2 (- v) ltac:(lra)); lra.
Qed.

Lemma Zsum_pos l : l <> [] -> (0 < Zsum l)%R.
Proof.
  destruct l as [|v l]; [congruence|intros _; simpl].
  pose proof (powerRZ_lt 2 (- v) ltac:(lra)).
  pose proof (Zsum_nonneg l); lra.
Qed.

Lemma count0_zero_registers l : count0 l = zero_registers l.
Proof.
  unfold count0, zero_registers, len.
  induction l as [|v l IH]; [reflexivity|].
  cbn [filter count_occ].
  destruct (Z.eq_dec v 0) as [->|Hv].
  - simpl; lia.
  - destruct (v =? 0) eqn:E; [apply Z.eqb_eq in E; contradiction|exact IH].
Qed.

Lemma zero_registers_le_len l : 0 <= zero_registers l <= len l.
Proof.
  unfold zero_registers, len; pose proof (count_occ_bound Z.eq_dec 0 l); lia.
Qed.

Lemma alpha_pos m : 0 < m -> (0 < alpha m)%R.
Proof.
  intros Hm; unfold alpha.
  destruct (m =? 16); [lra|].
  destruct (m =? 32); [lra|].
  destruct (m =? 64); [lra|].
  assert (0 < IZR m)%R by (apply IZR_lt; assumption).
  assert (0 < 1.079 / IZR m)%R by (apply Rdiv_lt_0_compat; lra).
  apply Rdiv_lt_0_compat; lra.
Qed.

Lemma alpha_m_run m : 0 < m -> HLL.alpha_m m = Ok (alpha m).
Proof.
  intros Hm; unfold HLL.alpha_m, alpha.
  destruct (m =? 16); [reflexivity|].
  destruct (m =? 32); [reflexivity|].
  destruct (m =? 64); [reflexivity|].
  assert (0 < IZR m)%R by (apply IZR_lt; assumption).
  assert (0 < 1.079 / IZR m)%R by (apply Rdiv_lt_0_compat; lra).
  unfold HLL.py_div.
  destruct (Req_dec_T (IZR m) 0); [lra|].
  destruct (Req_dec_T (1 + 1.079 / IZR m) 0); [lra|reflexivity].
Qed.

Lemma ln_2_lt_1 : (ln 2 < 1)%R.
Proof.
  rewrite <- (ln_exp 1); apply ln_increasing; [lra|].
  pose proof (exp_ineq1 1 ltac:(lra)); lra.
Qed.

Lemma ln_pow2_bound (p : nat) : (ln (2 ^ p) <= INR p)%R.
Proof.
  rewrite ln_pow by lra.
  pose proof ln_2_lt_1; pose proof (pos_INR p); nra.
Qed.

Lemma wf_m_pos h : hll_wf h -> 16 <= HLL.m h <= 65536.
Proof.
  intros (Hp & Hm & _); rewrite Hm.
  change 16 with (2 ^ 4) at 1; change 65536 with (2 ^ 16).
  split; apply Z.pow_le_mono_r; lia.
Qed.

Lemma wf_registers_nonempty h : hll_wf h -> HLL.registers h <> [].
Proof.
  intros Hwf; pose proof (wf_m_pos h Hwf) as Hm.
  destruct Hwf as (_ & _ & Hl); intros E; rewrite E in Hl.
  unfold len in Hl; simpl in Hl; lia.
Qed.

Lemma raw_estimate_pos h : hll_wf h -> (0 < raw_estimate h)%R.
Proof.
  intros Hwf; pose proof (wf_m_pos h Hwf) as Hm.
  pose proof (alpha_pos (HLL.m h) ltac:(lia)).
  pose proof (Zsum_pos _ (wf_registers_nonempty h Hwf)).
  assert (0 < IZR (HLL.m h))%R by (apply IZR_lt; lia).
  unfold raw_estimate; apply Rdiv_lt_0_compat; [|assumption].
  apply Rmult_lt_0_compat; [assumption|].
  apply Rmult_lt_0_compat; assumption.
Qed.

(** The large-range step as the code performs it: [math.log] may raise. *)
Definition large_range_step (E : R) : result R :=
  if Rgt_dec E large_range_threshold
  then match HLL.math_log (1 - E / two_32) with
       | Ok l => Ok (- two_32 * l)%R
       | Raise e => Raise e
       end
  else Ok E.

(** [count] on a well-formed estimator: the small-range step never fails,
    and the large-range step decides the outcome. *)
Lemma count_run h :
  hll_wf h ->
  HLL.count h = (large_range_step (small_range_corrected h), h).
Proof.
  intros Hwf; pose proof (wf_m_pos h Hwf) as Hm.
  pose proof (Zsum_pos _ (wf_registers_nonempty h Hwf)) as HZ.
  pose proof (zero_registers_le_len (HLL.registers h)) as HV.
  assert (Hlen : len (HLL.registers h) = HLL.m h) by apply Hwf.
  assert (HmR : (0 < IZR (HLL.m h))%R) by (apply IZR_lt; lia).
  unfold HLL.count, bind at 1, get at 1.
  unfold bind at 1, lift at 1; rewrite alpha_m_run by lia.
  unfold bind at 1, lift at 1, HLL.py_div at 1.
  rewrite harmonic_sum_Zsum, count0_zero_registers.
  destruct (Req_dec_T (Zsum (HLL.registers h)) 0) as [E0|_]; [lra|].
  replace (alpha (HLL.m h) * IZR (HLL.m h ^ 2) / Zsum (HLL.registers h))%R
    with (raw_estimate h)
    by (unfold raw_estimate; rewrite Z.pow_2_r, mult_IZR; reflexivity).
  assert (Hstep :
    (if Rle_dec (raw_estimate h) (5.0 * IZR (HLL.m h) / 2.0)
     then if negb (zero_registers (HLL.registers h) =? 0)
          then q <- lift (HLL.py_div (IZR (HLL.m h))
                            (IZR (zero_registers (HLL.registers h)))) ;;
               l <- lift (HLL.math_log q) ;;
               ret (IZR (HLL.m h) * l)%R
          else ret (raw_estimate h)
     else ret (raw_estimate h)) h
    = (Ok (small_range_corrected h), h)).
  { unfold small_range_corrected.
    destruct (Rle_dec (raw_estimate h) (5.0 * IZR (HLL.m h) / 2.0)) as [H1|H1];
      destruct (Rle_dec (raw_estimate h) (2.5 * IZR (HLL.m h))) as [H2|H2];
      try lra; [|reflexivity].
    destruct (zero_registers (HLL.registers h) =? 0) eqn:EV.
    - apply Z.eqb_eq in EV; rewrite EV; reflexivity.
    - apply Z.eqb_neq in EV.
      destruct (1 <=? zero_registers (HLL.registers h)) eqn:E1; [|lia].
      assert (0 < IZR (zero_registers (HLL.registers h)))%R
        by (apply IZR_lt; lia).
      cbn [negb]; unfold bind, lift, HLL.py_div, HLL.math_log.
      destruct (Req_dec_T _ 0); [lra|].
      destruct (Rle_dec _ 0) as [Hq|_]; [|reflexivity].
      assert (0 < IZR (HLL.m h) / IZR (zero_registers (HLL.registers h)))%R
        by (apply Rdiv_lt_0_compat; assumption).
      lra. }
  unfold bind at 1; rewrite Hstep.
  unfold large_range_step, large_range_threshold.
  change HLL.TWO_32 with two_32.
  set (E := small_range_corrected h).
  destruct (Rgt_dec E (two_32 / 30.0)) as [H1|H1];
    destruct (Rgt_dec E (two_32 / 30)) as [H2|H2];
    try (unfold two_32 in *; lra); [|reflexivity].
  replace (1.0 - E / two_32)%R with (1 - E / two_32)%R by lra.
  unfold bind, lift, ret.
  destruct (HLL.math_log (1 - E / two_32)); reflexivity.
Qed.

Lemma ln_monotone x y : (0 < x)%R -> (x <= y)%R -> (ln x <= ln y)%R.
Proof.
  intros Hx [Hlt| ->]; [|lra].
  pose proof (ln_increasing x y Hx Hlt); lra.
Qed.

(** Linear counting yields a value between 0 and [16 m]: it never reaches
    the large-range threshold. *)
Lemma linear_counting_bounds h :
  hll_wf h -> 1 <= zero_registers (HLL.registers h) ->
  (0 <= linear_counting h <= 1048576)%R.
Proof.
  intros Hwf HV; pose proof (wf_m_pos h Hwf) as Hm.
  pose proof (zero_registers_le_len (HLL.registers h)) as HVm.
  replace (len (HLL.registers h)) with (HLL.m h) in HVm by (symmetry; apply Hwf).
  unfold linear_counting.
  set (m := HLL.m h) in *; set (V := zero_registers (HLL.registers h)) in *.
  assert (HmR : (16 <= IZR m <= 65536)%R) by (split; apply IZR_le; lia).
  assert (HVR : (1 <= IZR V <= IZR m)%R) by (split; apply IZR_le; lia).
  assert (Hq : (1 <= IZR m / IZR V <= IZR m)%R).
  { split.
    - apply Rmult_le_reg_r with (r := IZR V); [lra|].
      unfold Rdiv; rewrite Rmult_assoc, Rinv_l by lra; lra.
    - apply Rmult_le_reg_r with (r := IZR V); [lra|].
      unfold Rdiv; rewrite Rmult_assoc, Rinv_l by lra; nra. }
  assert (Hln0 : (0 <= ln (IZR m / IZR V))%R)
    by (rewrite <- ln_1; apply ln_monotone; lra).
  assert (Hln16 : (ln (IZR m / IZR V) <= 16)%R).
  { apply Rle_trans with (ln 65536); [apply ln_monotone; lra|].
    replace 65536%R with (2 ^ 16)%R by (simpl; lra).
    pose proof (ln_pow2_bound 16) as H16.
    replace (INR 16) with 16%R in H16 by (simpl; lra); exact H16. }
  split; nra.
Qed.

(** When [count] returns on a well-formed estimator, which it does as long
    as the estimate entering the large-range step is below [2^32], the
    result is not negative. *)
Lemma count_returns_nonneg h :
  hll_wf h -> (small_range_corrected h < two_32)%R ->
  exists r, HLL.count h = (Ok r, h) /\ (0 <= r)%R.
Proof.
  intros Hwf Hlt; rewrite count_run by assumption.
  assert (H0 : (0 <= small_range_corrected h)%R).
  { unfold small_range_corrected.
    pose proof (raw_estimate_pos h Hwf).
    destruct (Rle_dec _ _); [|lra].
    destruct (1 <=? _) eqn:E; [|lra].
    apply Z.leb_le in E; apply (linear_counting_bounds h Hwf E). }
  set (E := small_range_corrected h) in *.
  unfold large_range_step, large_range_threshold, HLL.math_log, two_32 in *.
  destruct (Rgt_dec _ _) as [Hbig|_]; [|now exists E].
  assert (Harg : (0 < 1 - E / 4294967296 < 1)%R) by lra.
  destruct (Rle_dec _ 0); [lra|].
  eexists; split; [reflexivity|].
  assert (ln (1 - E / 4294967296) < 0)%R
    by (rewrite <- ln_1; apply ln_increasing; lra).
  nra.
Qed.

(** C4 (estimation formula).  On a well-formed estimator with registers
    within their bound, [count] uses the constant [alpha] (0.673, 0.697,
    0.709 for [m] = 16, 32, 64, and [0.7213 / (1 + 1.079 / m)] otherwise),
    the sum [Z] of [2^(-registers[j])] and the raw estimate
    [E = alpha * m^2 / Z]; when [E <= 2.5 m] and some register is zero it
    returns the linear-counting value [m * ln (m / V)] instead of [E]; and
    when neither correction applies it returns [E].  The two tests on [E]
    are taken at a relative distance of 10^-6 from their thresholds, where
    the rounding of binary64 cannot change their outcome. *)
Theorem estimation_formula (h : HLL.HyperLogLog) :
  hll_wf h -> bounded (HLL.p h) (HLL.registers h) ->
  HLL.alpha_m (HLL.m h) = Ok (alpha (HLL.m h)) /\
  HLL.harmonic_sum (HLL.registers h) = Zsum (HLL.registers h) /\
  ((raw_estimate h * 1.000001 <= 2.5 * IZR (HLL.m h))%R ->
   1 <= zero_registers (HLL.registers h) ->
   HLL.count h = (Ok (linear_counting h), h)) /\
  ((2.5 * IZR (HLL.m h) * 1.000001 <= raw_estimate h)%R \/
   zero_registers (HLL.registers h) = 0 ->
   (raw_estimate h * 1.000001 <= large_range_threshold)%R ->
   HLL.count h = (Ok (raw_estimate h), h)).
Proof.
  intros Hwf _; pose proof (wf_m_pos h Hwf) as Hm.
  pose proof (raw_estimate_pos h Hwf) as Hraw.
  assert (HmR : (0 < IZR (HLL.m h))%R) by (apply IZR_lt; lia).
  split; [apply alpha_m_run; lia|].
  split; [apply harmonic_sum_Zsum|].
  split.
  - intros HE HV; rewrite count_run by assumption.
    unfold small_range_corrected.
    destruct (Rle_dec _ _); [|lra].
    destruct (1 <=? _) eqn:E; [|lia].
    pose proof (linear_counting_bounds h Hwf HV).
    unfold large_range_step, large_range_threshold, two_32.
    destruct (Rgt_dec _ _); [lra|reflexivity].
  - intros Hns Hle; rewrite count_run by assumption.
    assert (Hcorr : small_range_corrected h = raw_estimate h).
    { unfold small_range_corrected.
      destruct (Rle_dec _ _) as [H1|]; [|reflexivity].
      destruct (1 <=? _) eqn:E; [|reflexivity].
      apply Z.leb_le in E; destruct Hns as [Hns|Hns]; [lra|lia]. }
    rewrite Hcorr; unfold large_range_step.
    destruct (Rgt_dec _ _); [lra|reflexivity].
Qed.


(** ** Normalisation and report keys *)

Lemma dict_set_keys {V} (d : dict V) (k : string) (v : V) (k' : string) :
  In k' (keys (dict_set d k v)) <-> k' = k \/ In k' (keys d).
Proof.
  unfold keys; induction d as [|[k0 v0] d IH]; simpl.
  - intuition congruence.
  - destruct (String.eqb k0 k) eqn:E; simpl.
    + apply String.eqb_eq in E; subst k0; intuition congruence.
    + rewrite IH; intuition congruence.
Qed.

(** On a well-formed filter [check_password_uniqueness] returns for
    passwords that print, and the keys of its report are the [str] forms
    of the passwords. *)
Lemma check_loop_run sha256 pwds acc b :
  bloom_ok b -> Forall printable pwds ->
  exists r b',
    Bloom.check_loop sha256 pwds acc b = (Ok r, b') /\ bloom_ok b' /\
    forall k, In k (keys r) <-> In k (keys acc) \/ In k (map str_of pwds).
Proof.
  revert acc b; induction pwds as [|pwd pwds IH]; intros acc b Hok Hall.
  - exists acc, b; split; [reflexivity|split; [assumption|]].
    simpl; intuition.
  - inversion Hall as [|? ? Hp Hrest]; subst.
    cbn [Bloom.check_loop]; unfold bind at 1.
    rewrite contains_run by assumption.
    destruct (forallb _ _).
    + unfold bind at 1, ret at 1, bind at 1, lift at 1.
      rewrite (str_printable pwd Hp).
      destruct (IH (dict_set acc (str_of pwd) Bloom.already_used_label) b
                  Hok Hrest) as (r & b' & Hrun & Hok' & Hk).
      exists r, b'; split; [exact Hrun|split; [exact Hok'|]].
      intros k; rewrite Hk, dict_set_keys; simpl; intuition.
    + unfold bind at 1, bind at 1.
      rewrite bloom_add_run by assumption.
      unfold ret at 1, bind at 1, lift at 1.
      rewrite (str_printable pwd Hp).
      pose proof (bloom_add_wf sha256 b pwd Hok Hp) as Hok1.
      rewrite bloom_add_run in Hok1 by assumption; simpl in Hok1.
      destruct (IH (dict_set acc (str_of pwd) Bloom.unique_label) _
                  Hok1 Hrest) as (r & b' & Hrun & Hok' & Hk).
      exists r, b'; split; [exact Hrun|split; [exact Hok'|]].
      intros k; rewrite Hk, dict_set_keys; simpl; intuition.
Qed.

(** The two readings of the uniform canonicalisation at the other call
    sites: the report key of a value is its normalised form, and
    [HyperLogLog] hashes the normalised form. *)
Definition report_key_canonical (sha256 : string -> Z) (v : value) : Prop :=
  forall b r b' s,
    bloom_wf b ->
    Bloom._normalize v = Ok s ->
    Bloom.check_password_uniqueness sha256 [v] b = (Ok r, b') ->
    keys r = [s].

Definition hll_hash_canonical (sha1 : string -> Z) (v : value) : Prop :=
  forall h s,
    Bloom._normalize v = Ok s ->
    HLL._hash sha1 v h = HLL._hash sha1 (PyStr s) h.

(** The filter and the estimator of the two demonstration blocks. *)
Definition demo_filter : Bloom.BloomFilter :=
  Bloom.mkBloomFilter 1000 3 (repeat 0 1000%nat).

Definition hll_p4 : HLL.HyperLogLog :=
  HLL.mkHyperLogLog 4 16 (repeat 0 16%nat).

Lemma demo_filter_wf : bloom_wf demo_filter.
Proof. split; reflexivity. Qed.

Lemma demo_filter_ok : bloom_ok demo_filter.
Proof.
  split; [exact demo_filter_wf|]; apply Z.leb_le; vm_compute; reflexivity.
Qed.

Lemma hll_p4_wf : hll_wf hll_p4.
Proof. repeat split; simpl; lia. Qed.

(** C3, as stated, fails for [None]: whatever the hash, the report key of
    [None] is not its normalised form (it is ["None"], not the empty
    string), and [HyperLogLog] does not hash [None] as it hashes the empty
    string. *)
Lemma normalization_counterexample :
  (forall sha256, ~ report_key_canonical sha256 PyNone) /\
  ~ hll_hash_canonical SHA1.sha1 PyNone.
Proof.
  split.
  - intros sha256 H.
    destruct (check_loop_run sha256 [PyNone] [] demo_filter demo_filter_ok)
      as (r & b' & Hrun & _ & Hk);
      [repeat constructor; eexists; reflexivity|].
    specialize (H demo_filter r b' ""%string demo_filter_wf eq_refl Hrun).
    assert (Hin : In "None"%string (keys r))
      by (apply Hk; right; left; reflexivity).
    rewrite H in Hin; destruct Hin as [Hin|[]]; discriminate.
  - intros H; specialize (H hll_p4 ""%string eq_refl).
    vm_compute in H; discriminate.
Qed.

(** C3, amended (normalisation is per call site).  [BloomFilter] hashes
    the normalised form of an item ([None] as the empty string, anything
    else as [str(item)]), so that an item and its normalised string probe
    the same bits; the report of [check_password_uniqueness] is keyed by
    [str(pwd)] and [HyperLogLog] hashes [str(value)], which for [None] is
    the string ["None"].  The report is returned for passwords on which
    [str] returns, with salts that print. *)
Theorem normalization_per_call_site (sha256 sha1 : string -> Z)
    (b : Bloom.BloomFilter) (h : HLL.HyperLogLog) (v : value)
    (pwds : list value) :
  bloom_wf b -> Bloom.num_hashes b <= int_str_limit ->
  Forall printable pwds ->
  Bloom._normalize PyNone = Ok ""%string /\
  (v <> PyNone -> Bloom._normalize v = str v) /\
  (forall s, Bloom._normalize v = Ok s ->
     Bloom.add sha256 v b = Bloom.add sha256 (PyStr s) b /\
     Bloom.__contains__ sha256 v b = Bloom.__contains__ sha256 (PyStr s) b) /\
  (exists r b',
     Bloom.check_password_uniqueness sha256 pwds b = (Ok r, b') /\
     forall k, In k (keys r) <-> exists pwd, In pwd pwds /\ str pwd = Ok k) /\
  (forall s, str v = Ok s ->
     HLL._hash sha1 v h = HLL._hash sha1 (PyStr s) h) /\
  str PyNone = Ok "None"%string.
Proof.
  intros Hwf Hlim Hall.
  split; [reflexivity|].
  split; [destruct v; [intros H; now elim H|reflexivity..]|].
  split.
  { intros s Hs; rewrite !add_unfold, !contains_unfold, Hs.
    split; reflexivity. }
  split; [|split; [|reflexivity]].
  - destruct (check_loop_run sha256 pwds [] b (conj Hwf Hlim) Hall)
      as (r & b' & Hrun & _ & Hk).
    exists r, b'; split; [exact Hrun|].
    intros k; rewrite Hk, in_map_iff; simpl; split.
    + intros [[]|(pwd & <- & Hin)]; exists pwd; split; [exact Hin|].
      apply str_printable; now apply (proj1 (Forall_forall _ _) Hall).
    + intros (pwd & Hin & Hs); right; exists pwd; split; [|exact Hin].
      symmetry; now apply str_returns.
  - intros s Hs; unfold HLL._hash, bind, lift; now rewrite Hs.
Qed.

(** ** [count] on concrete estimators *)

Lemma small_range_corrected_raw h :
  (2.5 * IZR (HLL.m h) < raw_estimate h)%R ->
  small_range_corrected h = raw_estimate h.
Proof.
  intros H; unfold small_range_corrected.
  destruct (Rle_dec _ _); [lra|reflexivity].
Qed.

(** The scenario of the specification, at precision 4: the five items
    a, b, a, c, b touch three registers. *)
Definition small_items : list value :=
  map PyStr ["a"; "b"; "a"; "c"; "b"]%string.

Definition small_state : HLL.HyperLogLog :=
  HLL.mkHyperLogLog 4 16 [0; 0; 0; 0; 0; 0; 0; 0; 0; 0; 1; 1; 0; 5; 0; 0].

Lemma small_state_reached :
  for_ small_items (HLL.add SHA1.sha1) hll_p4 = (Ok tt, small_state).
Proof. vm_compute; reflexivity. Qed.

Lemma small_state_wf : hll_wf small_state.
Proof. repeat split; simpl; lia. Qed.

Lemma small_state_small_range : small_range small_state.
Proof.
  split; [|vm_compute; discriminate].
  unfold raw_estimate, alpha, Zsum, small_state.
  cbn [HLL.m HLL.registers Z.eqb Pos.eqb fold_right Z.opp powerRZ].
  simpl; lra.
Qed.

(** Sixteen items, one per register, whose hashes have a value field with
    23 or 24 leading zeros: the raw estimate lies between [2^32 / 30] and
    [2^32]. *)
Definition midrange_items : list value :=
  map PyStr
    ["c106728327"; "b205843284"; "d36586431"; "a134784686"; "c293733610";
     "a216564962"; "d134070390"; "a39359101"; "a173786992"; "b144652742";
     "b364202917"; "a10437270"; "a131800124"; "a97069066"; "d95966105";
     "a464793723"]%string.

Definition midrange : HLL.HyperLogLog :=
  HLL.mkHyperLogLog 4 16
    [24; 24; 24; 24; 24; 25; 24; 24; 24; 24; 24; 24; 24; 24; 24; 24].

Lemma midrange_reached :
  for_ midrange_items (HLL.add SHA1.sha1) hll_p4 = (Ok tt, midrange).
Proof. vm_compute; reflexivity. Qed.

Lemma midrange_wf : hll_wf midrange.
Proof. repeat split; simpl; lia. Qed.



(** Sixteen items, one per register, whose hashes have a value field with
    at least 27 leading zeros: the raw estimate exceeds twice [2^32]. *)
Definition saturating_items : list value :=
  map PyStr
    ["b2339950994"; "a1127503816"; "c2428165177"; "c2104794575";
     "d1511834604"; "a448559323"; "b258216212"; "b383583049";
     "c2205061849"; "a390993845"; "a2495916759"; "a2139749087";
     "d2235644010"; "b2388565788"; "c1226968859"; "c153973280"]%string.

Definition saturated : HLL.HyperLogLog :=
  HLL.mkHyperLogLog 4 16
    [30; 28; 30; 35; 31; 29; 30; 29; 31; 29; 32; 31; 29; 30; 30; 31].

Lemma saturated_reached :
  for_ saturating_items (HLL.add SHA1.sha1) hll_p4 = (Ok tt, saturated).
Proof. vm_compute; reflexivity. Qed.

Lemma saturated_wf : hll_wf saturated.
Proof. repeat split; simpl; lia. Qed.

Lemma saturated_raw : (2 * 4294967296 < raw_estimate saturated)%R.
Proof.
  unfold raw_estimate, alpha, Zsum, saturated.
  cbn [HLL.m HLL.registers Z.eqb Pos.eqb fold_right Z.opp powerRZ].
  simpl; lra.
Qed.

Lemma saturated_corrected :
  small_range_corrected saturated = raw_estimate saturated.
Proof.
  apply small_range_corrected_raw; pose proof saturated_raw.
  cbn [HLL.m saturated]; lra.
Qed.

Lemma saturated_count : HLL.count saturated = (Raise ValueError, saturated).
Proof.
  rewrite count_run by apply saturated_wf.
  rewrite saturated_corrected; pose proof saturated_raw as H.
  unfold large_range_step, large_range_threshold, HLL.math_log, two_32.
  destruct (Rgt_dec _ _); [|lra].
  destruct (Rle_dec _ 0); [reflexivity|lra].
Qed.

(** C2 (totality), at the failing input.  An estimator built with
    [p = 4], after [add] of the sixteen [saturating_items], makes [count]
    raise [ValueError]: the estimate entering the large-range step exceeds
    [2^32] (it is more than twice as large), and [math.log] is applied to a
    negative number. *)
Theorem count_raises_when_saturated :
  HLL.__init__ 4 = Ok hll_p4 /\
  for_ saturating_items (HLL.add SHA1.sha1) hll_p4 = (Ok tt, saturated) /\
  HLL.count saturated = (Raise ValueError, saturated).
Proof.
  split; [reflexivity|split; [apply saturated_reached|apply saturated_count]].
Qed.


(** ** The theorems at concrete inputs *)

(** The passwords of the demonstration block. *)
Definition existing_passwords : list value :=
  map PyStr ["password123"; "admin123"; "qwerty123"]%string.

Lemma no_false_negatives_witness :
  (0 < 1000 /\ 0 < 3 /\ 3 <= int_str_limit /\
   Forall printable existing_passwords /\
   In (PyStr "admin123") existing_passwords) /\
  exists b0 b,
    Bloom.__init__ 1000 3 = Ok b0 /\
    for_ existing_passwords (Bloom.add SHA256.sha256) b0 = (Ok tt, b) /\
    Bloom.__contains__ SHA256.sha256 (PyStr "admin123") b = (Ok true, b).
Proof.
  assert (H1 : 0 < 1000) by lia.
  assert (H2 : 0 < 3) by lia.
  assert (Hk : 3 <= int_str_limit) by (apply Z.leb_le; vm_compute; reflexivity).
  assert (Hp : Forall printable existing_passwords)
    by (repeat constructor; eexists; reflexivity).
  assert (H3 : In (PyStr "admin123") existing_passwords)
    by (right; left; reflexivity).
  split; [exact (conj H1 (conj H2 (conj Hk (conj Hp H3))))|].
  exact (no_false_negatives SHA256.sha256 1000 3 existing_passwords
           (PyStr "admin123") H1 H2 Hk Hp H3).
Defined.

Lemma normalization_per_call_site_witness :
  (bloom_wf demo_filter /\
   Bloom.num_hashes demo_filter <= int_str_limit /\
   Forall printable [PyNone; PyStr ""]) /\
  (Bloom._normalize PyNone = Ok ""%string /\
   (PyNone <> PyNone -> Bloom._normalize PyNone = str PyNone) /\
   (forall s, Bloom._normalize PyNone = Ok s ->
      Bloom.add SHA256.sha256 PyNone demo_filter
      = Bloom.add SHA256.sha256 (PyStr s) demo_filter /\
      Bloom.__contains__ SHA256.sha256 PyNone demo_filter
      = Bloom.__contains__ SHA256.sha256 (PyStr s) demo_filter) /\
   (exists r b',
      Bloom.check_password_uniqueness SHA256.sha256 [PyNone; PyStr ""]
        demo_filter = (Ok r, b') /\
      forall k, In k (keys r)
                <-> exists pwd, In pwd [PyNone; PyStr ""] /\ str pwd = Ok k) /\
   (forall s, str PyNone = Ok s ->
      HLL._hash SHA1.sha1 PyNone hll_p4
      = HLL._hash SHA1.sha1 (PyStr s) hll_p4) /\
   str PyNone = Ok "None"%string).
Proof.
  assert (H : bloom_wf demo_filter) by (split; reflexivity).
  assert (Hk : Bloom.num_hashes demo_filter <= int_str_limit)
    by (apply Z.leb_le; vm_compute; reflexivity).
  assert (Hp : Forall printable [PyNone; PyStr ""])
    by (repeat constructor; eexists; reflexivity).
  split; [exact (conj H (conj Hk Hp))|].
  exact (normalization_per_call_site SHA256.sha256 SHA1.sha1 demo_filter
           hll_p4 PyNone [PyNone; PyStr ""] H Hk Hp).
Defined.

Lemma estimation_formula_witness :
  (hll_wf small_state /\
   bounded (HLL.p small_state) (HLL.registers small_state) /\
   (raw_estimate small_state * 1.000001 <= 2.5 * IZR (HLL.m small_state))%R /\
   1 <= zero_registers (HLL.registers small_state)) /\
  HLL.alpha_m 16 = Ok 0.673%R /\
  HLL.count small_state = (Ok (16 * ln (16 / 13))%R, small_state).
Proof.
  assert (H : hll_wf small_state) by (repeat split; simpl; lia).
  assert (Hb : bounded (HLL.p small_state) (HLL.registers small_state))
    by (repeat constructor; unfold HLL.MAX_BITS; simpl; lia).
  assert (HE : (raw_estimate small_state * 1.000001
                <= 2.5 * IZR (HLL.m small_state))%R).
  { unfold raw_estimate, alpha, Zsum, small_state.
    cbn [HLL.m HLL.registers Z.eqb Pos.eqb fold_right Z.opp powerRZ].
    simpl; lra. }
  assert (HV : 1 <= zero_registers (HLL.registers small_state))
    by (vm_compute; discriminate).
  split; [exact (conj H (conj Hb (conj HE HV)))|].
  destruct (estimation_formula small_state H Hb) as (Ha & _ & Hsmall & _).
  split; [exact Ha|].
  exact (Hsmall HE HV).
Defined.

Lemma add_register_update_witness :
  (hll_wf hll_p4 /\ printable (PyStr "a")) /\
  exists x idx w r h',
    HLL._hash SHA1.sha1 (PyStr "a") hll_p4 = (Ok x, hll_p4) /\
    0 <= x < 2 ^ HLL.MAX_BITS /\
    0 <= idx < 2 ^ 4 /\ 0 <= w < 2 ^ (HLL.MAX_BITS - 4) /\
    x = idx * 2 ^ (HLL.MAX_BITS - 4) + w /\
    HLL._rho w hll_p4
    = (Ok (1 + leading_zeros (Z.to_nat (HLL.MAX_BITS - 4)) w), hll_p4) /\
    (w = 0 ->
     1 + leading_zeros (Z.to_nat (HLL.MAX_BITS - 4)) w
     = HLL.MAX_BITS - 4 + 1) /\
    getitem (HLL.registers hll_p4) idx = Ok r /\
    HLL.add SHA1.sha1 (PyStr "a") hll_p4 = (Ok tt, h') /\
    HLL.p h' = 4 /\ HLL.m h' = 16 /\
    HLL.registers h'
    = set_nth (Z.to_nat idx)
        (Z.max r (1 + leading_zeros (Z.to_nat (HLL.MAX_BITS - 4)) w))
        (HLL.registers hll_p4) /\
    (forall j, j <> Z.to_nat idx ->
       nth_error (HLL.registers h') j = nth_error (HLL.registers hll_p4) j).
Proof.
  assert (H : hll_wf hll_p4) by (repeat split; simpl; lia).
  assert (Hp : printable (PyStr "a")) by (eexists; reflexivity).
  split; [exact (conj H Hp)|].
  exact (add_register_update SHA1.sha1 hll_p4 (PyStr "a") H Hp).
Defined.


Lemma register_invariant_witness :
  (4 <= 4 <= 16 /\ Forall printable small_items /\
   Forall printable midrange_items) /\
  exists h0 h h',
    HLL.__init__ 4 = Ok h0 /\
    for_ small_items (HLL.add SHA1.sha1) h0 = (Ok tt, h) /\
    for_ midrange_items (HLL.add SHA1.sha1) h = (Ok tt, h') /\
    registers_le (HLL.registers h) (HLL.registers h') /\
    bounded 4 (HLL.registers h) /\ bounded 4 (HLL.registers h').
Proof.
  assert (H : 4 <= 4 <= 16) by lia.
  assert (Hs : Forall printable small_items)
    by (repeat constructor; eexists; reflexivity).
  assert (Hm : Forall printable midrange_items)
    by (repeat constructor; eexists; reflexivity).
  split; [exact (conj H (conj Hs Hm))|].
  exact (register_invariant SHA1.sha1 4 small_items midrange_items H Hs Hm).
Defined.

Lemma add_idempotent_witness :
  (bloom_wf demo_filter /\ Bloom.num_hashes demo_filter <= int_str_limit /\
   hll_wf hll_p4 /\ printable (PyStr "guest")) /\
  (exists b1,
     Bloom.add SHA256.sha256 (PyStr "guest") demo_filter = (Ok tt, b1) /\
     Bloom.add SHA256.sha256 (PyStr "guest") b1 = (Ok tt, b1)) /\
  (exists h1,
     HLL.add SHA1.sha1 (PyStr "guest") hll_p4 = (Ok tt, h1) /\
     HLL.add SHA1.sha1 (PyStr "guest") h1 = (Ok tt, h1)).
Proof.
  assert (Hb : bloom_wf demo_filter) by (split; reflexivity).
  assert (Hk : Bloom.num_hashes demo_filter <= int_str_limit)
    by (apply Z.leb_le; vm_compute; reflexivity).
  assert (Hh : hll_wf hll_p4) by (repeat split; simpl; lia).
  assert (Hp : printable (PyStr "guest")) by (eexists; reflexivity).
  split; [exact (conj Hb (conj Hk (conj Hh Hp)))|].
  exact (add_idempotent SHA256.sha256 SHA1.sha1 demo_filter hll_p4
           (PyStr "guest") Hb Hk Hh Hp).
Defined.

(** ** The demonstration block of bloom_filter_passwords.py *)

Definition new_passwords_to_check : list value :=
  map PyStr ["password123"; "newpassword"; "admin123"; "guest"]%string.

(** The filter after the three existing passwords, then the report of the
    four new ones: two were seen, two are new and are added on the way. *)
Example demo_report :
  exists b b',
    for_ existing_passwords (Bloom.add SHA256.sha256) demo_filter = (Ok tt, b) /\
    Bloom.check_password_uniqueness SHA256.sha256 new_passwords_to_check b
    = (Ok [("password123"%string, Bloom.already_used_label);
           ("newpassword"%string, Bloom.unique_label);
           ("admin123"%string, Bloom.already_used_label);
           ("guest"%string, Bloom.unique_label)], b') /\
    fst (Bloom.__contains__ SHA256.sha256 (PyStr "newpassword") b) = Ok false /\
    fst (Bloom.__contains__ SHA256.sha256 (PyStr "newpassword") b') = Ok true /\
    fst (Bloom.__contains__ SHA256.sha256 (PyStr "guest") b') = Ok true.
Proof.
  eexists; eexists.
  split; [vm_compute; reflexivity|].
  split; [vm_compute; reflexivity|].
  repeat split; vm_compute; reflexivity.
Qed.

(** A fresh filter contains nothing, [None] and the empty string included;
    after [add(None)] it contains both, since both normalise to the empty
    string. *)
Example none_and_empty_collide :
  fst (Bloom.__contains__ SHA256.sha256 PyNone demo_filter) = Ok false /\
  fst (Bloom.__contains__ SHA256.sha256 (PyStr "")
         (snd (Bloom.add SHA256.sha256 PyNone demo_filter))) = Ok true.
Proof. split; vm_compute; reflexivity. Qed.

(** * Further properties of the two files *)

(** ** The filter as a set of bits *)

Lemma range_pos k : 0 < k -> exists t, range k = 0 :: t.
Proof.
  intros Hk; unfold range.
  destruct (Z.to_nat k) as [|n] eqn:E; [lia|].
  now exists (map Z.of_nat (seq 1 n)).
Qed.

Lemma range_length k : List.length (range k) = Z.to_nat k.
Proof. unfold range; now rewrite length_map, length_seq. Qed.

Lemma bit_set_zeros n p : bit_set (repeat 0 n) p = false.
Proof.
  unfold bit_set.
  destruct (nth_error (repeat 0 n) (Z.to_nat p)) as [v|] eqn:E; [|reflexivity].
  apply nth_error_In, repeat_spec in E; now subst v.
Qed.

Lemma set_bits_app ps qs l :
  set_bits (ps ++ qs) l = set_bits qs (set_bits ps l).
Proof. apply fold_left_app. Qed.

Lemma set_bits_length_nat ps l :
  List.length (set_bits ps l) = List.length l.
Proof. pose proof (set_bits_length ps l) as H; unfold len in H; lia. Qed.

Lemma set_bits_nth_in ps l j :
  In j (map Z.to_nat ps) -> (j < List.length l)%nat ->
  nth_error (set_bits ps l) j = Some 1.
Proof.
  revert l; induction ps as [|q ps IH]; intros l Hin Hj; [destruct Hin|].
  rewrite set_bits_cons; destruct Hin as [<-|Hin].
  - rewrite set_bits_push; apply set_nth_same.
    now rewrite set_bits_length_nat.
  - apply IH; [assumption|now rewrite set_nth_length].
Qed.

Lemma set_bits_nth_out ps l j :
  ~ In j (map Z.to_nat ps) -> nth_error (set_bits ps l) j = nth_error l j.
Proof.
  revert l; induction ps as [|q ps IH]; intros l Hout; [reflexivity|].
  rewrite set_bits_cons, IH by (intros H; apply Hout; now right).
  apply set_nth_other; intros H; apply Hout; now left.
Qed.

(** Which bits are set, not in what order or how often, decides the
    outcome. *)
Lemma set_bits_same_positions ps qs l :
  (forall j, In j (map Z.to_nat ps) <-> In j (map Z.to_nat qs)) ->
  set_bits ps l = set_bits qs l.
Proof.
  intros H; apply nth_error_ext; intros j.
  destruct (in_dec Nat.eq_dec j (map Z.to_nat ps)) as [Hin|Hout].
  - destruct (Nat.lt_ge_cases j (List.length l)) as [Hj|Hj].
    + rewrite !set_bits_nth_in; auto; now apply H.
    + transitivity (@None Z); [|symmetry];
        apply nth_error_None; now rewrite set_bits_length_nat.
  - rewrite !set_bits_nth_out; auto; now rewrite <- H.
Qed.

Lemma set_bits_cell ps l j v :
  nth_error l j = Some v ->
  nth_error (set_bits ps l) j = Some v \/ nth_error (set_bits ps l) j = Some 1.
Proof.
  intros Hv.
  destruct (in_dec Nat.eq_dec j (map Z.to_nat ps)) as [Hin|Hout].
  - right; apply set_bits_nth_in; [assumption|].
    apply nth_error_Some; congruence.
  - left; now rewrite set_bits_nth_out.
Qed.

(** The number of cells that hold 1. *)
Definition ones (l : list Z) : nat := count_occ Z.eq_dec l 1.

Lemma ones_set_nth n l : (ones (set_nth n 1%Z l) <= ones l + 1)%nat.
Proof.
  unfold ones; revert n; induction l as [|h t IH]; intros [|n]; simpl;
    try lia.
  - destruct (Z.eq_dec h 1); destruct (Z.eq_dec 1 1); lia.
  - specialize (IH n); destruct (Z.eq_dec h 1); lia.
Qed.

Lemma ones_set_bits ps l :
  (ones (set_bits ps l) <= ones l + List.length ps)%nat.
Proof.
  revert l; induction ps as [|q ps IH]; intros l; simpl; [lia|].
  change (fold_left _ ps ?x) with (set_bits ps x).
  specialize (IH (set_nth (Z.to_nat q) 1 l)).
  pose proof (ones_set_nth (Z.to_nat q) l); lia.
Qed.

Lemma ones_zeros n : ones (repeat 0 n) = 0%nat.
Proof.
  unfold ones; apply count_occ_not_In; intros H.
  apply repeat_spec in H; discriminate.
Qed.

Definition binary (l : list Z) : Prop := Forall (fun v => v = 0 \/ v = 1) l.

Lemma binary_set_bits ps l : binary l -> binary (set_bits ps l).
Proof.
  revert l; induction ps as [|q ps IH]; intros l Hl; [exact Hl|].
  rewrite set_bits_cons; apply IH.
  unfold binary in *; rewrite Forall_forall in *; intros v Hv.
  apply set_nth_In in Hv as [->|Hv]; [now right|now apply Hl].
Qed.

Section BloomRuns.

Variable sha256 : string -> Z.

(** The filter after a run of [add] calls: the bits probed for the items
    are set, in one sweep. *)
Lemma bloom_adds_bits items b :
  bloom_ok b -> Forall printable items ->
  for_ items (Bloom.add sha256) b
  = (Ok tt,
     Bloom.with_bit_array b
       (set_bits (flat_map (positions sha256 b) items) (Bloom.bit_array b))).
Proof.
  revert b; induction items as [|y items IH]; intros b Hok Hall.
  - destruct b; reflexivity.
  - inversion Hall as [|? ? Hy Hrest]; subst.
    cbn [for_ flat_map]; unfold bind.
    rewrite bloom_add_run by assumption.
    pose proof (bloom_add_wf sha256 b y Hok Hy) as Hok1.
    rewrite bloom_add_run in Hok1 by assumption; simpl in Hok1.
    rewrite (IH _ Hok1 Hrest), set_bits_app; reflexivity.
Qed.

Lemma positions_length b x :
  List.length (positions sha256 b x) = Z.to_nat (Bloom.num_hashes b).
Proof. unfold positions; now rewrite length_map, range_length. Qed.

Lemma flat_positions_length b items :
  List.length (flat_map (positions sha256 b) items)
  = (Z.to_nat (Bloom.num_hashes b) * List.length items)%nat.
Proof.
  induction items as [|y items IH]; simpl; [lia|].
  rewrite length_app, positions_length, IH; lia.
Qed.

(** An item for which [__contains__] returns is one that prints. *)
Lemma contains_returns_printable x b r :
  fst (Bloom.__contains__ sha256 x b) = Ok r -> printable x.
Proof.
  rewrite contains_unfold.
  destruct (Bloom._normalize x) as [s|e] eqn:E; [|discriminate].
  intros _; apply (normalize_returns x s E).
Qed.

End BloomRuns.

(** X1.  A freshly built filter reports every item absent for which
    [str] returns (the salts [str(i)] print as long as [num_hashes] is at
    most [10^4300]). *)
Theorem fresh_filter_contains_nothing (sha256 : string -> Z)
    (size k : Z) (x : value) :
  0 < size -> 0 < k -> k <= int_str_limit -> printable x ->
  exists b,
    Bloom.__init__ size k = Ok b /\
    Bloom.__contains__ sha256 x b = (Ok false, b).
Proof.
  intros Hs Hk Hlim Hp; eexists; split; [apply bloom_init_ok; assumption|].
  rewrite contains_run by (try assumption; apply bloom_init_good; assumption).
  unfold positions; cbn [Bloom.num_hashes Bloom.bit_array].
  destruct (range_pos k Hk) as (t & ->).
  cbn [map forallb]; now rewrite bit_set_zeros.
Qed.

(** X2.  On a well-formed filter whose salts print, [add] of an item for
    which [str] returns does return, never assigns [size] or [num_hashes],
    keeps the length of [bit_array], leaves every cell as it was or stores
    1 in it, and keeps every positive membership answer. *)
Theorem add_only_sets_bits (sha256 : string -> Z) (b : Bloom.BloomFilter)
    (y : value) :
  bloom_wf b -> Bloom.num_hashes b <= int_str_limit -> printable y ->
  exists b',
    Bloom.add sha256 y b = (Ok tt, b') /\
    Bloom.size b' = Bloom.size b /\
    Bloom.num_hashes b' = Bloom.num_hashes b /\
    len (Bloom.bit_array b') = len (Bloom.bit_array b) /\
    (forall j v, nth_error (Bloom.bit_array b) j = Some v ->
       nth_error (Bloom.bit_array b') j = Some v \/
       nth_error (Bloom.bit_array b') j = Some 1) /\
    (forall x, fst (Bloom.__contains__ sha256 x b) = Ok true ->
       fst (Bloom.__contains__ sha256 x b') = Ok true).
Proof.
  intros Hwf Hlim Hy.
  assert (Hok : bloom_ok b) by (split; assumption).
  pose proof (bloom_add_run sha256 b y Hok Hy) as Hrun.
  pose proof (bloom_add_wf sha256 b y Hok Hy) as Hok'.
  eexists; split; [exact Hrun|].
  split; [reflexivity|split; [reflexivity|]].
  split; [apply set_bits_length|].
  split; [intros j v Hv; now apply set_bits_cell|].
  intros x Hx.
  pose proof (contains_returns_printable sha256 x b true Hx) as Hp.
  rewrite contains_run in Hx by assumption.
  pose proof (add_keeps_member sha256 b y x Hok Hy) as Hm.
  rewrite Hrun in Hok', Hm; cbn [snd] in Hok', Hm.
  rewrite contains_run by assumption.
  unfold member in Hm; cbn [fst] in *; rewrite Hm; [reflexivity|].
  now injection Hx.
Qed.

(** X3.  The filter reached by a run of [add] calls depends on the set of
    items added only: two lists with the same elements, in any order and
    with any repetitions, lead to the same filter (the items are ones for
    which [str] returns, the filter one whose salts print). *)
Theorem filter_depends_on_item_set (sha256 : string -> Z)
    (b : Bloom.BloomFilter) (items items' : list value) :
  bloom_wf b -> Bloom.num_hashes b <= int_str_limit ->
  Forall printable items ->
  (forall x, In x items <-> In x items') ->
  exists b',
    for_ items (Bloom.add sha256) b = (Ok tt, b') /\
    for_ items' (Bloom.add sha256) b = (Ok tt, b').
Proof.
  intros Hwf Hlim Hall Hsame.
  assert (Hok : bloom_ok b) by (split; assumption).
  assert (Hall' : Forall printable items').
  { rewrite Forall_forall in *; intros x Hx; apply Hall, Hsame, Hx. }
  eexists; split; [apply bloom_adds_bits; assumption|].
  rewrite bloom_adds_bits by assumption; do 2 f_equal.
  apply set_bits_same_positions; intros j.
  rewrite !in_map_iff; split; intros (q & Hq & Hin);
    exists q; (split; [exact Hq|]);
    apply in_flat_map in Hin as (x & Hx & Hin);
    apply in_flat_map; exists x; (split; [now apply Hsame|exact Hin]).
Qed.

(** X4.  Starting from a valid construction whose salts print, every cell
    of [bit_array] is 0 or 1 after any run of [add] calls with items for
    which [str] returns, and at most [num_hashes * len(items)] cells
    are 1. *)
Theorem fill_bound (sha256 : string -> Z) (size k : Z)
    (items : list value) :
  0 < size -> 0 < k -> k <= int_str_limit -> Forall printable items ->
  exists b0 b,
    Bloom.__init__ size k = Ok b0 /\
    for_ items (Bloom.add sha256) b0 = (Ok tt, b) /\
    binary (Bloom.bit_array b) /\
    Z.of_nat (ones (Bloom.bit_array b)) <= k * len items.
Proof.
  intros Hs Hk Hlim Hall.
  pose proof (bloom_init_ok size k Hs Hk) as Hinit.
  pose proof (bloom_init_good size k Hs Hk Hlim) as Hok.
  eexists; eexists; split; [exact Hinit|].
  split; [apply bloom_adds_bits; assumption|].
  cbn [Bloom.bit_array Bloom.with_bit_array]; split.
  - apply binary_set_bits, Forall_forall; intros v Hv.
    apply repeat_spec in Hv; now left.
  - match goal with |- context [set_bits ?ps ?l] =>
      pose proof (ones_set_bits ps l) as H end.
    rewrite ones_zeros, flat_positions_length in H.
    cbn [Bloom.num_hashes] in H; unfold len; nia.
Qed.

(** X5.  Items are told apart by their normalised string only: two items
    with the same outcome of [_normalize] get the same answer from every
    filter, and when [_normalize] returns for them, adding one makes the
    other present. *)
Theorem normalized_items_collide (sha256 : string -> Z)
    (b : Bloom.BloomFilter) (v w : value) :
  bloom_wf b -> Bloom.num_hashes b <= int_str_limit -> printable v ->
  Bloom._normalize v = Bloom._normalize w ->
  Bloom.__contains__ sha256 v b = Bloom.__contains__ sha256 w b /\
  exists b',
    Bloom.add sha256 v b = (Ok tt, b') /\
    Bloom.__contains__ sha256 w b' = (Ok true, b').
Proof.
  intros Hwf Hlim Hv Hn.
  assert (Hok : bloom_ok b) by (split; assumption).
  split.
  - rewrite !contains_unfold; now rewrite Hn.
  - pose proof (bloom_add_run sha256 b v Hok Hv) as Hrun.
    pose proof (bloom_add_wf sha256 b v Hok Hv) as Hok'.
    pose proof (add_member sha256 b v Hok Hv) as Hm.
    rewrite Hrun in Hok', Hm; cbn [snd] in Hok', Hm.
    eexists; split; [exact Hrun|].
    rewrite contains_unfold, <- Hn, <- contains_unfold.
    rewrite contains_run by assumption.
    unfold member in Hm; now rewrite Hm.
Qed.

(** X6.  A filter whose cells are all non-zero reports every item present
    for which [str] returns. *)
Theorem full_filter_contains_everything (sha256 : string -> Z)
    (b : Bloom.BloomFilter) (x : value) :
  bloom_wf b -> Bloom.num_hashes b <= int_str_limit -> printable x ->
  Forall (fun v => v <> 0) (Bloom.bit_array b) ->
  Bloom.__contains__ sha256 x b = (Ok true, b).
Proof.
  intros Hwf Hlim Hx Hfull.
  rewrite contains_run by (try assumption; split; assumption).
  replace (forallb _ _) with true; [reflexivity|].
  symmetry; apply forallb_forall; intros q Hq.
  pose proof (positions_in_range sha256 b x q Hwf Hq) as Hr.
  unfold bit_set.
  destruct (nth_error (Bloom.bit_array b) (Z.to_nat q)) as [v|] eqn:E.
  - rewrite Forall_forall in Hfull.
    specialize (Hfull v (nth_error_In _ _ E)).
    destruct (v =? 0) eqn:E0; [apply Z.eqb_eq in E0; contradiction|reflexivity].
  - apply nth_error_None in E; unfold len in Hr; lia.
Qed.

(** ** [check_password_uniqueness] *)

(** [d.get(k)]: the value stored under [k], if any. *)
Fixpoint dict_get {V} (d : dict V) (k : string) : option V :=
  match d with
  | [] => None
  | (k', v) :: rest => if String.eqb k' k then Some v else dict_get rest k
  end.

Lemma dict_get_set {V} (d : dict V) (k : string) (v : V) (k' : string) :
  dict_get (dict_set d k v) k'
  = if String.eqb k k' then Some v else dict_get d k'.
Proof.
  induction d as [|[k0 v0] d IH]; simpl; [reflexivity|].
  destruct (String.eqb_spec k0 k) as [->|Hk0]; simpl.
  - destruct (String.eqb_spec k k'); reflexivity.
  - destruct (String.eqb_spec k0 k') as [->|Hk0'].
    + destruct (String.eqb_spec k k'); [congruence|reflexivity].
    + exact IH.
Qed.

(** The strings of a list in the order of their first occurrence. *)
Fixpoint uniq (l : list string) : list string :=
  match l with
  | [] => []
  | x :: t => x :: filter (fun y => negb (String.eqb y x)) (uniq t)
  end.

Lemma uniq_In l x : In x (uniq l) <-> In x l.
Proof.
  induction l as [|y t IH]; simpl; [tauto|].
  rewrite filter_In, IH.
  destruct (String.eqb_spec x y) as [->|Hxy]; simpl; intuition congruence.
Qed.

Lemma uniq_NoDup l : NoDup (uniq l).
Proof.
  induction l as [|y t IH]; simpl; constructor.
  - rewrite filter_In; intros [_ H]; now rewrite String.eqb_refl in H.
  - now apply NoDup_filter.
Qed.

Lemma uniq_snoc l k :
  uniq (l ++ [k]) = if in_dec string_dec k l then uniq l else uniq l ++ [k].
Proof.
  induction l as [|x t IH]; simpl; [reflexivity|].
  rewrite IH; destruct (string_dec x k) as [->|Hxk].
  - destruct (in_dec string_dec k t); [reflexivity|].
    rewrite filter_app; simpl; rewrite String.eqb_refl; simpl.
    now rewrite app_nil_r.
  - destruct (in_dec string_dec k t); [reflexivity|].
    rewrite filter_app; simpl.
    destruct (String.eqb_spec k x); [congruence|reflexivity].
Qed.

Lemma keys_dict_set {V} (d : dict V) k v :
  keys (dict_set d k v)
  = if in_dec string_dec k (keys d) then keys d else keys d ++ [k].
Proof.
  unfold keys; induction d as [|[k0 v0] d IH]; simpl; [reflexivity|].
  destruct (String.eqb_spec k0 k) as [->|Hk0]; simpl.
  - destruct (string_dec k k); [reflexivity|congruence].
  - rewrite IH; destruct (string_dec k0 k); [congruence|].
    destruct (in_dec string_dec k (map fst d)); reflexivity.
Qed.

Lemma labels_differ : Bloom.already_used_label <> Bloom.unique_label.
Proof. discriminate. Qed.

Lemma dict_set_Forall {V} (P : string * V -> Prop) (d : dict V) k v :
  Forall P d -> (forall k', P (k', v)) -> Forall P (dict_set d k v).
Proof.
  intros Hd Hv; induction d as [|[k0 v0] d IH]; simpl.
  - now repeat constructor.
  - inversion Hd; subst.
    destruct (String.eqb k0 k); constructor; auto.
Qed.

Section CheckFacts.

Variable sha256 : string -> Z.

(** One turn of the loop of [check_password_uniqueness], on the report so
    far and the filter, for a password for which [str] returns. *)
Definition check_step (st : dict string * Bloom.BloomFilter) (pwd : value)
  : dict string * Bloom.BloomFilter :=
  if member sha256 (snd st) pwd
  then (dict_set (fst st) (str_of pwd) Bloom.already_used_label, snd st)
  else (dict_set (fst st) (str_of pwd) Bloom.unique_label,
        snd (Bloom.add sha256 pwd (snd st))).

Lemma check_step_wf st pwd :
  bloom_ok (snd st) -> printable pwd -> bloom_ok (snd (check_step st pwd)).
Proof.
  intros Hok Hp; unfold check_step.
  destruct (member _ _ _); [exact Hok|now apply bloom_add_wf].
Qed.

(** On a well-formed filter whose salts print the loop returns for
    passwords that print; it is the iteration of [check_step]. *)
Lemma check_loop_fold pwds acc b :
  bloom_ok b -> Forall printable pwds ->
  Bloom.check_loop sha256 pwds acc b
  = (Ok (fst (fold_left check_step pwds (acc, b))),
     snd (fold_left check_step pwds (acc, b))).
Proof.
  revert acc b; induction pwds as [|pwd pwds IH]; intros acc b Hok Hall;
    [reflexivity|].
  inversion Hall as [|? ? Hp Hrest]; subst.
  cbn [Bloom.check_loop fold_left]; unfold bind at 1.
  rewrite contains_run by assumption.
  unfold check_step at 2 4; cbn [fst snd]; fold (member sha256 b pwd).
  destruct (member sha256 b pwd).
  - unfold bind at 1, ret at 1, bind at 1, lift at 1.
    rewrite (str_printable pwd Hp); apply IH; assumption.
  - unfold bind at 1, bind at 1.
    pose proof (bloom_add_wf sha256 b pwd Hok Hp) as Hok1.
    rewrite bloom_add_run in * by assumption.
    unfold ret at 1, bind at 1, lift at 1.
    rewrite (str_printable pwd Hp); apply IH; assumption.
Qed.

Lemma check_step_member st pwd x :
  bloom_ok (snd st) -> printable pwd ->
  member sha256 (snd st) x = true ->
  member sha256 (snd (check_step st pwd)) x = true.
Proof.
  intros Hok Hp Hx; unfold check_step.
  destruct (member sha256 (snd st) pwd); [exact Hx|now apply add_keeps_member].
Qed.

Lemma check_step_adds st pwd :
  bloom_ok (snd st) -> printable pwd ->
  member sha256 (snd (check_step st pwd)) pwd = true.
Proof.
  intros Hok Hp; unfold check_step.
  destruct (member sha256 (snd st) pwd) eqn:E; [exact E|now apply add_member].
Qed.

Lemma check_fold_wf pwds st :
  bloom_ok (snd st) -> Forall printable pwds ->
  bloom_ok (snd (fold_left check_step pwds st)).
Proof.
  revert st; induction pwds as [|pwd pwds IH]; intros st Hok Hall;
    [exact Hok|].
  inversion Hall; subst; apply IH; [now apply check_step_wf|assumption].
Qed.

Lemma check_fold_member pwds st x :
  bloom_ok (snd st) -> Forall printable pwds ->
  member sha256 (snd st) x = true ->
  member sha256 (snd (fold_left check_step pwds st)) x = true.
Proof.
  revert st; induction pwds as [|pwd pwds IH]; intros st Hok Hall Hx;
    [exact Hx|].
  inversion Hall; subst.
  apply IH; [now apply check_step_wf|assumption|now apply check_step_member].
Qed.

Lemma check_fold_adds pwds st x :
  bloom_ok (snd st) -> Forall printable pwds -> In x pwds ->
  member sha256 (snd (fold_left check_step pwds st)) x = true.
Proof.
  revert st; induction pwds as [|pwd pwds IH]; intros st Hok Hall Hin;
    [destruct Hin|].
  inversion Hall; subst.
  destruct Hin as [->|Hin]; cbn [fold_left].
  - apply check_fold_member; [now apply check_step_wf|assumption|].
    now apply check_step_adds.
  - apply IH; [now apply check_step_wf|assumption|exact Hin].
Qed.

(** A key reported as unique goes back to a password that was absent. *)
Lemma check_fold_unique pwds st k :
  bloom_ok (snd st) -> Forall printable pwds ->
  dict_get (fst (fold_left check_step pwds st)) k = Some Bloom.unique_label ->
  (dict_get (fst st) k = Some Bloom.unique_label /\
   forall pwd, In pwd pwds -> str_of pwd <> k) \/
  exists pwd, In pwd pwds /\ str_of pwd = k /\
              member sha256 (snd st) pwd = false.
Proof.
  revert st; induction pwds as [|pwd pwds IH]; intros st Hok Hall Hget.
  - left; split; [exact Hget|intros pwd []].
  - inversion Hall as [|? ? Hp Hrest]; subst.
    cbn [fold_left] in Hget.
    destruct (IH _ (check_step_wf st pwd Hok Hp) Hrest Hget)
      as [[Hacc Hnone]|(pwd' & Hin & Hk & Hm)].
    + unfold check_step in Hacc.
      destruct (member sha256 (snd st) pwd) eqn:Em; cbn [fst] in Hacc;
        rewrite dict_get_set in Hacc;
        destruct (String.eqb_spec (str_of pwd) k) as [Hk|Hk].
      * exfalso; apply labels_differ; congruence.
      * left; split; [exact Hacc|].
        intros pwd' [<-|Hin]; [exact Hk|now apply Hnone].
      * right; exists pwd; split; [now left|split; assumption].
      * left; split; [exact Hacc|].
        intros pwd' [<-|Hin]; [exact Hk|now apply Hnone].
    + right; exists pwd'; split; [now right|split; [exact Hk|]].
      destruct (member sha256 (snd st) pwd') eqn:E; [|reflexivity].
      rewrite (check_step_member st pwd pwd' Hok Hp E) in Hm; discriminate.
Qed.

(** When every password is already present the filter is not touched and
    every label written is the already-used one. *)
Lemma check_fold_known pwds st :
  (forall x, In x pwds -> member sha256 (snd st) x = true) ->
  Forall (fun kv => snd kv = Bloom.already_used_label) (fst st) ->
  snd (fold_left check_step pwds st) = snd st /\
  Forall (fun kv => snd kv = Bloom.already_used_label)
    (fst (fold_left check_step pwds st)).
Proof.
  revert st; induction pwds as [|pwd pwds IH]; intros st Hall Hacc;
    [now split|].
  cbn [fold_left].
  assert (Hstep : check_step st pwd
                  = (dict_set (fst st) (str_of pwd) Bloom.already_used_label,
                     snd st))
    by (unfold check_step; now rewrite Hall by now left).
  rewrite Hstep.
  destruct (IH (dict_set (fst st) (str_of pwd) Bloom.already_used_label,
                snd st))
    as [H1 H2]; cbn [fst snd].
  - intros x Hx; apply Hall; now right.
  - apply dict_set_Forall; [exact Hacc|reflexivity].
  - split; [exact H1|exact H2].
Qed.

Lemma check_fold_keys pwds st ks :
  keys (fst st) = uniq ks ->
  keys (fst (fold_left check_step pwds st)) = uniq (ks ++ map str_of pwds).
Proof.
  revert st ks; induction pwds as [|pwd pwds IH]; intros st ks Hks.
  - now rewrite app_nil_r.
  - cbn [fold_left map].
    replace (ks ++ str_of pwd :: map str_of pwds)
      with ((ks ++ [str_of pwd]) ++ map str_of pwds)
      by (now rewrite <- app_assoc).
    apply IH.
    assert (Hk : keys (fst (check_step st pwd))
                 = if in_dec string_dec (str_of pwd) (keys (fst st))
                   then keys (fst st) else keys (fst st) ++ [str_of pwd])
      by (unfold check_step; destruct (member _ _ _); apply keys_dict_set).
    rewrite Hk, uniq_snoc, Hks.
    destruct (in_dec string_dec (str_of pwd) (uniq ks)) as [H|H];
      destruct (in_dec string_dec (str_of pwd) ks) as [H'|H'];
      try reflexivity; rewrite uniq_In in H; contradiction.
Qed.

Lemma check_fold_other_keys pwds st k :
  (forall pwd, In pwd pwds -> str_of pwd <> k) ->
  dict_get (fst (fold_left check_step pwds st)) k = dict_get (fst st) k.
Proof.
  revert st; induction pwds as [|pwd pwds IH]; intros st Hk; [reflexivity|].
  cbn [fold_left]; rewrite IH by (intros pwd' H; apply Hk; now right).
  unfold check_step; destruct (member _ _ _); cbn [fst];
    rewrite dict_get_set;
    (destruct (String.eqb_spec (str_of pwd) k) as [E|_];
       [exfalso; apply (Hk pwd); [now left|exact E]|reflexivity]).
Qed.

Lemma check_step_known st v :
  member sha256 (snd st) v = true ->
  dict_get (fst (check_step st v)) (str_of v)
  = Some Bloom.already_used_label.
Proof.
  intros Hm; unfold check_step; rewrite Hm; cbn [fst].
  now rewrite dict_get_set, String.eqb_refl.
Qed.

(** When [__contains__] answers [True] for every password and leaves the
    filter as it is, the loop never calls [add]: it returns with the
    filter untouched and writes the already-used label only. *)
Lemma check_loop_known pwds acc b :
  (forall x, In x pwds -> Bloom.__contains__ sha256 x b = (Ok true, b)) ->
  Forall (fun kv => snd kv = Bloom.already_used_label) acc ->
  exists r,
    Bloom.check_loop sha256 pwds acc b = (Ok r, b) /\
    Forall (fun kv => snd kv = Bloom.already_used_label) r.
Proof.
  revert acc; induction pwds as [|pwd pwds IH]; intros acc Hall Hacc.
  - exists acc; split; [reflexivity|exact Hacc].
  - pose proof (Hall pwd (or_introl eq_refl)) as Hc.
    assert (Hp : printable pwd).
    { apply (contains_returns_printable sha256 pwd b true).
      now rewrite Hc. }
    cbn [Bloom.check_loop]; unfold bind at 1; rewrite Hc.
    unfold bind at 1, ret at 1, bind at 1, lift at 1.
    rewrite (str_printable pwd Hp).
    apply IH; [intros x Hx; apply Hall; now right|].
    apply dict_set_Forall; [exact Hacc|reflexivity].
Qed.

End CheckFacts.

Lemma contains_member sha256 b x :
  bloom_ok b -> printable x ->
  Bloom.__contains__ sha256 x b = (Ok (member sha256 b x), b).
Proof. intros Hok Hp; now rewrite contains_run. Qed.

(** X7.  On a well-formed filter whose salts print,
    [check_password_uniqueness] returns for passwords for which [str]
    returns; afterwards every password of the list is reported present by
    the filter, and so is everything that was present before. *)
Theorem check_adds_every_password (sha256 : string -> Z)
    (b : Bloom.BloomFilter) (pwds : list value) :
  bloom_wf b -> Bloom.num_hashes b <= int_str_limit ->
  Forall printable pwds ->
  exists r b',
    Bloom.check_password_uniqueness sha256 pwds b = (Ok r, b') /\
    (forall x, Bloom.__contains__ sha256 x b = (Ok true, b) ->
       Bloom.__contains__ sha256 x b' = (Ok true, b')) /\
    (forall x, In x pwds -> Bloom.__contains__ sha256 x b' = (Ok true, b')).
Proof.
  intros Hwf Hlim Hall.
  assert (Hok : bloom_ok b) by (split; assumption).
  unfold Bloom.check_password_uniqueness.
  rewrite check_loop_fold by assumption.
  set (st := fold_left (check_step sha256) pwds ([], b)).
  assert (Hok' : bloom_ok (snd st)) by (apply check_fold_wf; assumption).
  exists (fst st), (snd st); split; [reflexivity|split].
  - intros x Hx.
    assert (Hp : printable x).
    { apply (contains_returns_printable sha256 x b true); now rewrite Hx. }
    rewrite contains_member in Hx by assumption.
    rewrite contains_member by assumption.
    subst st; rewrite check_fold_member;
      [reflexivity|exact Hok|exact Hall|].
    cbn [snd]; congruence.
  - intros x Hx.
    assert (Hp : printable x)
      by (rewrite Forall_forall in Hall; apply Hall, Hx).
    rewrite contains_member by assumption.
    subst st; rewrite check_fold_adds;
      [reflexivity|exact Hok|exact Hall|exact Hx].
Qed.

(** X8.  A key that the report labels unique is what [str] returns for a
    password of the list that the filter, as it was handed in, reported
    absent. *)
Theorem reported_unique_was_absent (sha256 : string -> Z)
    (b : Bloom.BloomFilter) (pwds : list value) :
  bloom_wf b -> Bloom.num_hashes b <= int_str_limit ->
  Forall printable pwds ->
  exists r b',
    Bloom.check_password_uniqueness sha256 pwds b = (Ok r, b') /\
    forall k, dict_get r k = Some Bloom.unique_label ->
      exists pwd, In pwd pwds /\ str pwd = Ok k /\
                  Bloom.__contains__ sha256 pwd b = (Ok false, b).
Proof.
  intros Hwf Hlim Hall.
  assert (Hok : bloom_ok b) by (split; assumption).
  unfold Bloom.check_password_uniqueness.
  rewrite check_loop_fold by assumption.
  eexists; eexists; split; [reflexivity|].
  intros k Hk.
  destruct (check_fold_unique sha256 pwds ([], b) k Hok Hall Hk)
    as [[Hacc _]|(pwd & Hin & Hs & Hm)]; [discriminate|].
  assert (Hp : printable pwd)
    by (rewrite Forall_forall in Hall; apply Hall, Hin).
  exists pwd; split; [exact Hin|split].
  - rewrite <- Hs; now apply str_printable.
  - rewrite contains_member by assumption; cbn [snd] in Hm; now rewrite Hm.
Qed.

(** X9.  When the filter already reports every password of the list
    present, the call leaves the filter exactly as it was and labels every
    entry of the report already used. *)
Theorem known_passwords_leave_filter (sha256 : string -> Z)
    (b : Bloom.BloomFilter) (pwds : list value) :
  bloom_wf b ->
  (forall x, In x pwds -> Bloom.__contains__ sha256 x b = (Ok true, b)) ->
  exists r,
    Bloom.check_password_uniqueness sha256 pwds b = (Ok r, b) /\
    Forall (fun kv => snd kv = Bloom.already_used_label) r.
Proof.
  intros _ Hall; unfold Bloom.check_password_uniqueness.
  apply check_loop_known; [exact Hall|constructor].
Qed.

(** X10.  Checking the same list a second time changes nothing: the
    filter stays as the first call left it, the report has the same keys,
    and every label is the already-used one (for a filter whose salts
    print and passwords for which [str] returns). *)
Theorem check_twice (sha256 : string -> Z) (b : Bloom.BloomFilter)
    (pwds : list value) :
  bloom_wf b -> Bloom.num_hashes b <= int_str_limit ->
  Forall printable pwds ->
  exists r b' r2,
    Bloom.check_password_uniqueness sha256 pwds b = (Ok r, b') /\
    Bloom.check_password_uniqueness sha256 pwds b' = (Ok r2, b') /\
    keys r2 = keys r /\
    Forall (fun kv => snd kv = Bloom.already_used_label) r2.
Proof.
  intros Hwf Hlim Hall.
  assert (Hok : bloom_ok b) by (split; assumption).
  unfold Bloom.check_password_uniqueness.
  set (st := fold_left (check_step sha256) pwds ([], b)).
  assert (Hok' : bloom_ok (snd st)) by (apply check_fold_wf; assumption).
  destruct (check_fold_known sha256 pwds ([], snd st)) as [Hb Hr].
  - intros x Hx; cbn [snd]; subst st.
    apply check_fold_adds; [exact Hok|exact Hall|exact Hx].
  - constructor.
  - exists (fst st), (snd st); eexists.
    split; [apply check_loop_fold; assumption|].
    split; [rewrite check_loop_fold by assumption|split; [|exact Hr]].
    + f_equal; exact Hb.
    + subst st.
      transitivity (uniq ([] ++ map str_of pwds));
        [|symmetry]; now apply check_fold_keys.
Qed.

(** X11.  The report has one entry per distinct string form of the
    passwords, in the order in which the string forms first occur; the
    string form of a password is what [str] returns for it. *)
Theorem report_keys_first_occurrence (sha256 : string -> Z)
    (b : Bloom.BloomFilter) (pwds : list value) (forms : list string) :
  bloom_wf b -> Bloom.num_hashes b <= int_str_limit ->
  Forall2 (fun pwd k => str pwd = Ok k) pwds forms ->
  exists r b',
    Bloom.check_password_uniqueness sha256 pwds b = (Ok r, b') /\
    keys r = uniq forms /\ NoDup (keys r).
Proof.
  intros Hwf Hlim Hforms.
  assert (Hok : bloom_ok b) by (split; assumption).
  assert (Hall : Forall printable pwds).
  { clear -Hforms; induction Hforms as [|pwd k pwds forms Hk _ IH];
      constructor; [now exists k|exact IH]. }
  assert (Hmap : forms = map str_of pwds).
  { clear -Hforms; induction Hforms as [|pwd k pwds forms Hk _ IH];
      [reflexivity|].
    cbn [map]; now rewrite (str_returns pwd k Hk), IH. }
  unfold Bloom.check_password_uniqueness.
  rewrite check_loop_fold by assumption.
  eexists; eexists; split; [reflexivity|].
  assert (Hk : keys (fst (fold_left (check_step sha256) pwds ([], b)))
               = uniq forms)
    by (rewrite Hmap;
        apply (check_fold_keys sha256 pwds ([], b) []); reflexivity).
  split; [exact Hk|].
  eapply eq_ind_r with (P := @NoDup string); [apply uniq_NoDup|exact Hk].
Qed.

(** X12.  A password that occurs twice in the list, with no later
    password of the same string form, is reported already used (the later
    store to the key wins). *)
Theorem repeated_password_reported_used (sha256 : string -> Z)
    (b : Bloom.BloomFilter) (l1 l2 l3 : list value) (v : value) :
  bloom_wf b -> Bloom.num_hashes b <= int_str_limit ->
  Forall printable (l1 ++ v :: l2 ++ v :: l3) ->
  (forall w, In w l3 -> str w <> str v) ->
  exists r b' k,
    Bloom.check_password_uniqueness sha256 (l1 ++ v :: l2 ++ v :: l3) b
    = (Ok r, b') /\
    str v = Ok k /\
    dict_get r k = Some Bloom.already_used_label.
Proof.
  intros Hwf Hlim Hall Hl3.
  assert (Hok : bloom_ok b) by (split; assumption).
  assert (Hin : forall w, In w (l1 ++ v :: l2 ++ v :: l3) -> printable w)
    by (apply Forall_forall, Hall).
  assert (Hv : printable v)
    by (apply Hin, in_or_app; right; now left).
  assert (Hl3' : forall w, In w l3 -> str_of w <> str_of v).
  { intros w Hw Heq; apply (Hl3 w Hw).
    rewrite (str_printable v Hv), str_printable, Heq; [reflexivity|].
    apply Hin, in_or_app; right; right.
    apply in_or_app; right; now right. }
  unfold Bloom.check_password_uniqueness.
  rewrite check_loop_fold by assumption.
  eexists; eexists; exists (str_of v); split; [reflexivity|].
  split; [now apply str_printable|].
  replace (l1 ++ v :: l2 ++ v :: l3) with ((l1 ++ v :: l2) ++ v :: l3) in *
    by (rewrite <- app_assoc; reflexivity).
  rewrite fold_left_app; cbn [fold_left].
  rewrite check_fold_other_keys by exact Hl3'.
  apply Forall_app in Hall as [Hall12 _].
  apply check_step_known, check_fold_adds; [exact Hok|exact Hall12|].
  apply in_or_app; right; now left.
Qed.

(** ** When [count] returns, and what *)

Lemma alpha_le m : 0 < m -> (alpha m <= 0.7213)%R.
Proof.
  intros Hm; unfold alpha.
  destruct (m =? 16); [lra|].
  destruct (m =? 32); [lra|].
  destruct (m =? 64); [lra|].
  assert (0 < IZR m)%R by (apply IZR_lt; assumption).
  assert (0 < 1.079 / IZR m)%R by (apply Rdiv_lt_0_compat; lra).
  apply Rmult_le_reg_r with (r := (1 + 1.079 / IZR m)%R); [lra|].
  unfold Rdiv at 1; rewrite Rmult_assoc, Rinv_l by lra; nra.
Qed.

(** Every zero register contributes 1 to [Z]. *)
Lemma Zsum_ge_zero_registers l : (IZR (zero_registers l) <= Zsum l)%R.
Proof.
  unfold zero_registers; induction l as [|v l IH]; simpl; [lra|].
  pose proof (powerRZ_lt 2 (- v) ltac:(lra)).
  destruct (Z.eq_dec v 0) as [->|Hv].
  - rewrite Nat2Z.inj_succ, succ_IZR; simpl; lra.
  - lra.
Qed.

Lemma raw_estimate_le h :
  hll_wf h -> 1 <= zero_registers (HLL.registers h) ->
  (raw_estimate h * IZR (zero_registers (HLL.registers h))
   <= 0.7213 * (IZR (HLL.m h) * IZR (HLL.m h)))%R.
Proof.
  intros Hwf HV; pose proof (wf_m_pos h Hwf) as Hm.
  pose proof (alpha_le (HLL.m h) ltac:(lia)) as Ha.
  pose proof (alpha_pos (HLL.m h) ltac:(lia)) as Ha0.
  pose proof (Zsum_ge_zero_registers (HLL.registers h)) as HZ.
  pose proof (Zsum_pos _ (wf_registers_nonempty h Hwf)) as HZ0.
  assert (HVR : (1 <= IZR (zero_registers (HLL.registers h)))%R)
    by (apply IZR_le; assumption).
  assert (HmR : (0 < IZR (HLL.m h))%R) by (apply IZR_lt; lia).
  unfold raw_estimate.
  set (a := alpha (HLL.m h)) in *; set (m := IZR (HLL.m h)) in *.
  set (Z := Zsum (HLL.registers h)) in *.
  set (V := IZR (zero_registers (HLL.registers h))) in *.
  assert (Hq : (V / Z <= 1)%R).
  { apply Rmult_le_reg_r with (r := Z); [assumption|].
    unfold Rdiv; rewrite Rmult_assoc, Rinv_l by lra; lra. }
  replace (a * (m * m) / Z * V)%R with (a * (m * m) * (V / Z))%R
    by (unfold Rdiv; ring).
  assert (Hmm : (0 < m * m)%R) by (apply Rmult_lt_0_compat; assumption).
  set (mm := (m * m)%R) in *; set (q := (V / Z)%R) in *.
  assert (H1 : (a * mm * q <= a * mm * 1)%R).
  { apply Rmult_le_compat_l; [|exact Hq].
    apply Rlt_le, Rmult_lt_0_compat; assumption. }
  assert (H2 : (a * mm <= 0.7213 * mm)%R)
    by (apply Rmult_le_compat_r; lra).
  lra.
Qed.

Lemma raw_estimate_below_two_32 h :
  hll_wf h -> 1 <= zero_registers (HLL.registers h) ->
  (raw_estimate h < two_32)%R.
Proof.
  intros Hwf HV; pose proof (wf_m_pos h Hwf) as Hm.
  pose proof (raw_estimate_le h Hwf HV) as H.
  pose proof (raw_estimate_pos h Hwf) as H0.
  assert (HVR : (1 <= IZR (zero_registers (HLL.registers h)))%R)
    by (apply IZR_le; assumption).
  assert (HmR : (16 <= IZR (HLL.m h) <= 65536)%R)
    by (split; apply IZR_le; lia).
  unfold two_32; nra.
Qed.

Lemma many_zero_small_range h :
  hll_wf h ->
  3 * HLL.m h <= 10 * zero_registers (HLL.registers h) ->
  small_range h.
Proof.
  intros Hwf H3; pose proof (wf_m_pos h Hwf) as Hm.
  assert (HV : 1 <= zero_registers (HLL.registers h)) by lia.
  split; [|exact HV].
  pose proof (raw_estimate_le h Hwf HV) as H.
  pose proof (raw_estimate_pos h Hwf) as H0.
  assert (HmR : (16 <= IZR (HLL.m h))%R) by (apply IZR_le; lia).
  assert (H3R : (3 * IZR (HLL.m h)
                 <= 10 * IZR (zero_registers (HLL.registers h)))%R).
  { rewrite <- !mult_IZR; apply IZR_le; exact H3. }
  nra.
Qed.

Lemma count_small_range h :
  hll_wf h -> small_range h -> HLL.count h = (Ok (linear_counting h), h).
Proof.
  intros Hwf [HE HV]; rewrite count_run by assumption.
  unfold small_range_corrected.
  destruct (Rle_dec _ _); [|contradiction].
  destruct (1 <=? _) eqn:E; [|lia].
  pose proof (linear_counting_bounds h Hwf HV).
  unfold large_range_step, large_range_threshold, two_32.
  destruct (Rgt_dec _ _); [lra|reflexivity].
Qed.

Lemma corrected_below_iff h :
  hll_wf h ->
  (small_range_corrected h < two_32 <-> raw_estimate h < two_32)%R.
Proof.
  intros Hwf; pose proof (wf_m_pos h Hwf) as Hm.
  assert (HmR : (IZR (HLL.m h) <= 65536)%R) by (apply IZR_le; lia).
  unfold small_range_corrected, two_32.
  destruct (Rle_dec _ _) as [Hle|]; [|tauto].
  destruct (1 <=? _) eqn:E; [|tauto].
  apply Z.leb_le in E.
  pose proof (linear_counting_bounds h Hwf E); split; intros _; lra.
Qed.

(** X13.  A freshly built estimator estimates 0. *)
Theorem fresh_estimator_counts_zero (p : Z) :
  4 <= p <= 16 ->
  exists h, HLL.__init__ p = Ok h /\ HLL.count h = (Ok 0%R, h).
Proof.
  intros Hp; pose proof (hll_init_ok p Hp) as Hinit.
  pose proof (hll_init_wf _ _ Hinit) as Hwf.
  eexists; split; [exact Hinit|].
  set (h := HLL.mkHyperLogLog _ _ _) in *.
  pose proof (wf_m_pos h Hwf) as Hm.
  assert (HV : zero_registers (HLL.registers h) = HLL.m h).
  { subst h; cbn [HLL.registers HLL.m] in *; unfold zero_registers.
    rewrite count_occ_repeat_eq by reflexivity; lia. }
  rewrite count_small_range; [|exact Hwf|apply many_zero_small_range; [exact Hwf|lia]].
  unfold linear_counting; rewrite HV.
  assert (HmR : (0 < IZR (HLL.m h))%R) by (apply IZR_lt; lia).
  replace (IZR (HLL.m h) / IZR (HLL.m h))%R with 1%R
    by (unfold Rdiv; rewrite Rinv_r by lra; reflexivity).
  rewrite ln_1, Rmult_0_r; reflexivity.
Qed.

(** X14.  While at least three registers in ten are zero, and the
    registers are within their bound [0 .. 64 - p + 1], [count] is linear
    counting: it returns [m * ln (m / V)], a function of the number [V] of
    zero registers alone.  (The raw estimate is then below [2.41 * m], well
    away from the threshold [2.5 * m].) *)
Theorem linear_counting_when_many_zero (h : HLL.HyperLogLog) :
  hll_wf h -> bounded (HLL.p h) (HLL.registers h) ->
  3 * HLL.m h <= 10 * zero_registers (HLL.registers h) ->
  HLL.count h
  = (Ok (IZR (HLL.m h)
         * ln (IZR (HLL.m h) / IZR (zero_registers (HLL.registers h))))%R,
     h).
Proof.
  intros Hwf _ H3; apply count_small_range, many_zero_small_range; assumption.
Qed.

(** X15.  On a well-formed estimator with registers within their bound
    [0 .. 64 - p + 1], [count] raises [ValueError] when the raw estimate
    [alpha * m^2 / Z] is at least [2^32], and returns a value that is not
    negative when it is below [2^32]; both with a relative margin of
    [10^-6] around [2^32], inside which the rounding of the float
    operations decides. *)
Theorem count_fails_beyond_two_32 (h : HLL.HyperLogLog) :
  hll_wf h -> bounded (HLL.p h) (HLL.registers h) ->
  ((4294967296 * 1.000001 <= raw_estimate h)%R ->
   HLL.count h = (Raise ValueError, h)) /\
  ((raw_estimate h * 1.000001 <= 4294967296)%R ->
   exists r, HLL.count h = (Ok r, h) /\ (0 <= r)%R).
Proof.
  intros Hwf _; pose proof (raw_estimate_pos h Hwf) as Hpos.
  pose proof (corrected_below_iff h Hwf) as Hiff; unfold two_32 in Hiff.
  split.
  - intros Hge; rewrite count_run by assumption.
    assert (Hc : (two_32 <= small_range_corrected h)%R).
    { unfold two_32.
      destruct (Rle_lt_dec 4294967296 (small_range_corrected h)) as [H|H];
        [exact H|apply Hiff in H; lra]. }
    unfold large_range_step, large_range_threshold, HLL.math_log, two_32 in *.
    destruct (Rgt_dec _ _); [|lra].
    destruct (Rle_dec _ 0); [reflexivity|lra].
  - intros Hlt; apply count_returns_nonneg; [exact Hwf|].
    unfold two_32; apply Hiff; lra.
Qed.

(** X16.  As long as one register is still zero, and the registers are
    within their bound [0 .. 64 - p + 1], [count] returns, and the value is
    not negative. *)
Theorem count_total_with_zero_register (h : HLL.HyperLogLog) :
  hll_wf h -> bounded (HLL.p h) (HLL.registers h) ->
  1 <= zero_registers (HLL.registers h) ->
  exists r, HLL.count h = (Ok r, h) /\ (0 <= r)%R.
Proof.
  intros Hwf _ HV; apply count_returns_nonneg; [exact Hwf|].
  apply corrected_below_iff; [exact Hwf|].
  apply raw_estimate_below_two_32; assumption.
Qed.

(** ** The estimator as a function of the stream *)

Lemma nth_set_nth {A} (n j : nat) (v d : A) (l : list A) :
  nth j (set_nth n v l) d
  = if Nat.eqb n j then (if Nat.ltb j (List.length l) then v else d)
    else nth j l d.
Proof.
  revert n j; induction l as [|h t IH]; intros [|n] [|j]; simpl;
    try reflexivity.
  - now destruct (Nat.eqb n j).
  - rewrite IH; destruct (Nat.eqb n j); [|reflexivity].
    change (S j <? S (List.length t))%nat with (j <? List.length t)%nat.
    reflexivity.
Qed.

Lemma count_occ_set_nth (n : nat) (v x : Z) (l : list Z) :
  (count_occ Z.eq_dec l x <= count_occ Z.eq_dec (set_nth n v l) x + 1)%nat.
Proof.
  revert n; induction l as [|h t IH]; intros [|n]; simpl; try lia.
  - destruct (Z.eq_dec h x); destruct (Z.eq_dec v x); lia.
  - specialize (IH n); destruct (Z.eq_dec h x); lia.
Qed.

Section HLLStream.

Variable sha1 : string -> Z.

(** The estimator after [add v]. *)
Definition hll_step (h : HLL.HyperLogLog) (v : value) : HLL.HyperLogLog :=
  HLL.with_registers h (updated sha1 h v).

Lemma hll_adds_fold items h :
  hll_wf h -> Forall printable items ->
  for_ items (HLL.add sha1) h = (Ok tt, fold_left hll_step items h).
Proof.
  revert h; induction items as [|v items IH]; intros h Hwf Hall;
    [reflexivity|].
  inversion Hall; subst.
  cbn [for_ fold_left]; unfold bind.
  rewrite hll_add_run by assumption.
  apply IH; [apply hll_add_wf, Hwf|assumption].
Qed.

Lemma hll_fold_wf items h : hll_wf h -> hll_wf (fold_left hll_step items h).
Proof.
  revert h; induction items as [|v items IH]; intros h Hwf; [exact Hwf|].
  apply IH, hll_add_wf, Hwf.
Qed.

Lemma hll_fold_parameters items h :
  HLL.p (fold_left hll_step items h) = HLL.p h /\
  HLL.m (fold_left hll_step items h) = HLL.m h.
Proof.
  revert h; induction items as [|v items IH]; intros h; [now split|].
  cbn [fold_left]; destruct (IH (hll_step h v)) as [H1 H2].
  now rewrite H1, H2.
Qed.

(** One [add] takes at most one register away from zero. *)
Lemma zero_registers_step h v :
  zero_registers (HLL.registers h)
  <= zero_registers (HLL.registers (hll_step h v)) + 1.
Proof.
  unfold hll_step, updated; cbn [HLL.registers HLL.with_registers].
  destruct (_ >? _); [|lia].
  unfold zero_registers.
  match goal with |- context [set_nth ?n ?r ?l] =>
    pose proof (count_occ_set_nth n r 0 l) end.
  lia.
Qed.

Lemma zero_registers_fold items h :
  zero_registers (HLL.registers h)
  <= zero_registers (HLL.registers (fold_left hll_step items h)) + len items.
Proof.
  revert h; induction items as [|v items IH]; intros h.
  - unfold len; simpl; lia.
  - cbn [fold_left]; specialize (IH (hll_step h v)).
    pose proof (zero_registers_step h v).
    unfold len in *; cbn [List.length]; lia.
Qed.

(** The value of register [j] after one [add]. *)
Definition reg_update (p : Z) (j : nat) (a : Z) (v : value) : Z :=
  if Nat.eqb (Z.to_nat (reg_index sha1 p v)) j
  then Z.max a (rho_of p (reg_field sha1 p v))
  else a.

Lemma nth_hll_step h v j :
  hll_wf h -> (j < List.length (HLL.registers h))%nat ->
  nth j (HLL.registers (hll_step h v)) 0
  = reg_update (HLL.p h) j (nth j (HLL.registers h) 0) v.
Proof.
  intros Hwf Hj; unfold hll_step, updated, reg_update.
  cbn [HLL.registers HLL.with_registers].
  set (idx := Z.to_nat (reg_index sha1 (HLL.p h) v)).
  set (rho := rho_of (HLL.p h) (reg_field sha1 (HLL.p h) v)).
  destruct (rho >? nth idx (HLL.registers h) 0) eqn:E.
  - rewrite nth_set_nth.
    destruct (Nat.eqb_spec idx j) as [->|Hne]; [|reflexivity].
    destruct (Nat.ltb_spec j (List.length (HLL.registers h))); lia.
  - destruct (Nat.eqb_spec idx j) as [->|Hne]; [lia|reflexivity].
Qed.

Lemma nth_hll_fold items h j :
  hll_wf h -> (j < List.length (HLL.registers h))%nat ->
  nth j (HLL.registers (fold_left hll_step items h)) 0
  = fold_left (reg_update (HLL.p h) j) items (nth j (HLL.registers h) 0).
Proof.
  revert h; induction items as [|v items IH]; intros h Hwf Hj; [reflexivity|].
  cbn [fold_left]; rewrite IH.
  - now rewrite nth_hll_step.
  - apply hll_add_wf, Hwf.
  - pose proof (updated_length sha1 h v) as Hl; unfold len in Hl.
    unfold hll_step; cbn [HLL.registers HLL.with_registers]; lia.
Qed.

(** A register ends at the largest of its start value and the values
    stored into it: at least each of them, and equal to one of them. *)
Lemma reg_fold_bounds p j items a :
  let F := fold_left (reg_update p j) items a in
  a <= F /\
  (forall v, In v items -> Z.to_nat (reg_index sha1 p v) = j ->
     rho_of p (reg_field sha1 p v) <= F) /\
  (F = a \/
   exists v, In v items /\ Z.to_nat (reg_index sha1 p v) = j /\
             F = rho_of p (reg_field sha1 p v)).
Proof.
  revert a; induction items as [|v items IH]; intros a; cbn [fold_left].
  - split; [lia|split; [intros v []|now left]].
  - destruct (IH (reg_update p j a v)) as (H1 & H2 & H3).
    assert (Ha : a <= reg_update p j a v)
      by (unfold reg_update; destruct (Nat.eqb _ _); lia).
    split; [lia|split].
    + intros w [<-|Hw] Hidx; [|now apply H2].
      assert (rho_of p (reg_field sha1 p v) <= reg_update p j a v).
      { unfold reg_update; rewrite Hidx, Nat.eqb_refl; lia. }
      lia.
    + destruct H3 as [H3|(w & Hw & Hidx & H3)].
      * assert (Hc : reg_update p j a v = a \/
                     (Z.to_nat (reg_index sha1 p v) = j /\
                      reg_update p j a v = rho_of p (reg_field sha1 p v))).
        { unfold reg_update.
          destruct (Nat.eqb_spec (Z.to_nat (reg_index sha1 p v)) j)
            as [Hidx|_]; [|now left].
          destruct (Z.max_spec a (rho_of p (reg_field sha1 p v)))
            as [[_ Hmax]|[_ Hmax]]; rewrite Hmax; [right|left]; auto. }
        destruct Hc as [Hc|[Hidx Hc]]; [left; congruence|].
        right; exists v; split; [now left|split; [exact Hidx|congruence]].
      * right; exists w; split; [now right|split; assumption].
Qed.

Lemma reg_fold_same_elements p j items items' a :
  (forall x, In x items <-> In x items') ->
  fold_left (reg_update p j) items a = fold_left (reg_update p j) items' a.
Proof.
  intros Hsame.
  destruct (reg_fold_bounds p j items a) as (H1 & H2 & H3).
  destruct (reg_fold_bounds p j items' a) as (H1' & H2' & H3').
  cbv zeta in *.
  assert (fold_left (reg_update p j) items a
          <= fold_left (reg_update p j) items' a).
  { destruct H3 as [->|(v & Hv & Hidx & ->)]; [exact H1'|].
    apply H2'; [now apply Hsame|exact Hidx]. }
  assert (fold_left (reg_update p j) items' a
          <= fold_left (reg_update p j) items a).
  { destruct H3' as [->|(v & Hv & Hidx & ->)]; [exact H1|].
    apply H2; [now apply Hsame|exact Hidx]. }
  lia.
Qed.

Lemma hll_fold_same_elements items items' h :
  hll_wf h ->
  (forall x, In x items <-> In x items') ->
  fold_left hll_step items h = fold_left hll_step items' h.
Proof.
  intros Hwf Hsame.
  pose proof (hll_fold_wf items h Hwf) as (_ & _ & Hl).
  pose proof (hll_fold_wf items' h Hwf) as (_ & _ & Hl').
  destruct (hll_fold_parameters items h) as [Hp Hm].
  destruct (hll_fold_parameters items' h) as [Hp' Hm'].
  assert (Hlen : List.length (HLL.registers h) = Z.to_nat (HLL.m h))
    by (destruct Hwf as (_ & _ & H); unfold len in H; lia).
  assert (Hregs : HLL.registers (fold_left hll_step items h)
                  = HLL.registers (fold_left hll_step items' h)).
  { apply nth_ext with (d := 0) (d' := 0).
    - unfold len in Hl, Hl'; lia.
    - intros j Hj.
      assert (Hj' : (j < List.length (HLL.registers h))%nat)
        by (unfold len in Hl; lia).
      rewrite !nth_hll_fold by assumption.
      now apply reg_fold_same_elements. }
  destruct (fold_left hll_step items h), (fold_left hll_step items' h).
  cbn [HLL.p HLL.m HLL.registers] in *; congruence.
Qed.

End HLLStream.

(** X17.  After fewer than [m = 2^p] calls of [add] on a fresh estimator,
    with items for which [str] returns, some register is still zero, so
    that [count] returns, and the value is not negative. *)
Theorem count_total_below_m_items (sha1 : string -> Z) (p : Z)
    (items : list value) :
  4 <= p <= 16 -> len items < 2 ^ p -> Forall printable items ->
  exists h0 h r,
    HLL.__init__ p = Ok h0 /\
    for_ items (HLL.add sha1) h0 = (Ok tt, h) /\
    1 <= zero_registers (HLL.registers h) /\
    HLL.count h = (Ok r, h) /\ (0 <= r)%R.
Proof.
  intros Hp Hn Hall; pose proof (hll_init_ok p Hp) as Hinit.
  pose proof (hll_init_wf _ _ Hinit) as Hwf0.
  set (h0 := HLL.mkHyperLogLog _ _ _) in *.
  pose proof (hll_fold_wf sha1 items h0 Hwf0) as Hwf.
  assert (HV : 1 <= zero_registers
                      (HLL.registers (fold_left (hll_step sha1) items h0))).
  { pose proof (zero_registers_fold sha1 items h0) as H.
    assert (H0 : zero_registers (HLL.registers h0) = 2 ^ p).
    { subst h0; cbn [HLL.registers]; unfold zero_registers.
      rewrite count_occ_repeat_eq, Z.shiftl_1_l by reflexivity.
      rewrite Z2Nat.id; [reflexivity|apply Z.pow_nonneg; lia]. }
    lia. }
  destruct (count_returns_nonneg _ Hwf) as (r & Hr & Hr0).
  { apply corrected_below_iff; [exact Hwf|].
    apply raw_estimate_below_two_32; assumption. }
  exists h0, (fold_left (hll_step sha1) items h0), r.
  split; [exact Hinit|split; [apply hll_adds_fold; assumption|]].
  split; [exact HV|split; assumption].
Qed.

(** X18.  The estimator reached by a run of [add] calls depends on the
    set of items added only: two streams with the same elements, in any
    order and with any repetitions, lead to the same registers, hence to
    the same outcome of [count] (the items are ones for which [str]
    returns). *)
Theorem estimator_depends_on_item_set (sha1 : string -> Z)
    (h : HLL.HyperLogLog) (items items' : list value) :
  hll_wf h -> Forall printable items ->
  (forall x, In x items <-> In x items') ->
  exists h',
    for_ items (HLL.add sha1) h = (Ok tt, h') /\
    for_ items' (HLL.add sha1) h = (Ok tt, h').
Proof.
  intros Hwf Hall Hsame; exists (fold_left (hll_step sha1) items h).
  assert (Hall' : Forall printable items').
  { rewrite Forall_forall in *; intros x Hx; apply Hall, Hsame, Hx. }
  split; [apply hll_adds_fold; assumption|].
  rewrite (hll_fold_same_elements sha1 items items' h Hwf Hsame).
  apply hll_adds_fold; assumption.
Qed.

(** ** The two measurements of hll_vs_exact.py *)

(** [exact_unique_count(ips)]: [len(set(ips))]. *)
Definition exact_unique_count (ips : list string) : Z :=
  len (nodup string_dec ips).

(** [measure_exact(ips)]; [start] and [stop] are the two readings of
    [perf_counter()], taken before and after the count. *)
Definition measure_exact (ips : list string) (start stop : R) : Z * R :=
  let cnt := exact_unique_count ips in
  let elapsed := (stop - start)%R in
  (cnt, elapsed).

(** [measure_hll(ips, p)]; the estimator is built before the first reading
    of the clock, and an exception of [HyperLogLog], [add] or [count]
    leaves the function. *)
Definition measure_hll (sha1 : string -> Z) (ips : list string) (p : Z)
    (start stop : R) : result (R * R) :=
  match HLL.__init__ p with
  | Raise e => Raise e
  | Ok hll =>
      match (for_ (map PyStr ips) (HLL.add sha1) ;;; HLL.count) hll with
      | (Ok estimate, _) =>
          let elapsed := (stop - start)%R in
          Ok (estimate, elapsed)
      | (Raise e, _) => Raise e
      end
  end.

Lemma nodup_same_length (l l' : list string) :
  (forall x, In x l <-> In x l') ->
  List.length (nodup string_dec l) = List.length (nodup string_dec l').
Proof.
  intros Hsame; apply Nat.le_antisymm;
    (apply NoDup_incl_length; [apply NoDup_nodup|]);
    intros x Hx; apply nodup_In; apply nodup_In in Hx; now apply Hsame.
Qed.

Lemma nodup_length_le (l : list string) :
  (List.length (nodup string_dec l) <= List.length l)%nat.
Proof.
  apply NoDup_incl_length; [apply NoDup_nodup|].
  intros x Hx; now apply nodup_In in Hx.
Qed.

Lemma map_PyStr_In (l : list string) (x : value) :
  In x (map PyStr l) <-> exists s, x = PyStr s /\ In s l.
Proof.
  rewrite in_map_iff; split; intros (s & H1 & H2); exists s; auto.
Qed.

Lemma map_PyStr_printable (l : list string) : Forall printable (map PyStr l).
Proof.
  apply Forall_forall; intros x Hx.
  apply in_map_iff in Hx as (s & <- & _); apply printable_PyStr.
Qed.

Lemma map_PyStr_same (l l' : list string) :
  (forall s, In s l <-> In s l') ->
  forall x, In x (map PyStr l) <-> In x (map PyStr l').
Proof.
  intros Hsame x; rewrite !map_PyStr_In.
  split; intros (s & -> & Hs); exists s; (split; [reflexivity|now apply Hsame]).
Qed.

(** [measure_hll] on a valid precision: the run of [add] calls returns,
    and [count] decides. *)
Lemma measure_hll_run sha1 ips p start stop :
  4 <= p <= 16 ->
  measure_hll sha1 ips p start stop
  = match HLL.count
            (fold_left (hll_step sha1) (map PyStr ips)
               (HLL.mkHyperLogLog p (Z.shiftl 1 p)
                  (repeat 0 (Z.to_nat (Z.shiftl 1 p))))) with
    | (Ok estimate, _) => Ok (estimate, (stop - start)%R)
    | (Raise e, _) => Raise e
    end.
Proof.
  intros Hp; unfold measure_hll; rewrite hll_init_ok by assumption.
  unfold bind; rewrite hll_adds_fold;
    [reflexivity| |apply map_PyStr_printable].
  eapply hll_init_wf, hll_init_ok; assumption.
Qed.

(** X19.  The exact count lies between 0 and the length of the list and
    depends on the set of addresses only: lists with the same elements
    have the same count. *)
Theorem exact_unique_count_of_set (ips ips' : list string) :
  (forall s, In s ips <-> In s ips') ->
  exact_unique_count ips = exact_unique_count ips' /\
  0 <= exact_unique_count ips <= len ips.
Proof.
  intros Hsame; unfold exact_unique_count, len; split.
  - now rewrite (nodup_same_length ips ips').
  - pose proof (nodup_length_le ips); lia.
Qed.

(** X20.  The exact count equals the length of the list exactly when no
    address occurs twice. *)
Theorem exact_unique_count_all_distinct (ips : list string) :
  exact_unique_count ips = len ips <-> NoDup ips.
Proof.
  unfold exact_unique_count, len; split.
  - intros H.
    apply NoDup_incl_NoDup with (l := nodup string_dec ips);
      [apply NoDup_nodup|lia|].
    intros x Hx; now apply nodup_In in Hx.
  - intros H; now rewrite nodup_fixed_point.
Qed.

(** X21.  Like the exact count, the outcome of [measure_hll] (the
    estimate, or the exception) depends on the set of addresses only,
    not on their order or on how often each occurs. *)
Theorem measure_hll_of_set (sha1 : string -> Z) (ips ips' : list string)
    (p : Z) (start stop : R) :
  4 <= p <= 16 ->
  (forall s, In s ips <-> In s ips') ->
  measure_hll sha1 ips p start stop = measure_hll sha1 ips' p start stop /\
  fst (measure_exact ips start stop) = fst (measure_exact ips' start stop).
Proof.
  intros Hp Hsame; split.
  - rewrite !measure_hll_run by assumption.
    rewrite (hll_fold_same_elements sha1 (map PyStr ips) (map PyStr ips'));
      [reflexivity| |now apply map_PyStr_same].
    eapply hll_init_wf, hll_init_ok; assumption.
  - cbn [measure_exact fst]; unfold exact_unique_count, len.
    now rewrite (nodup_same_length ips ips').
Qed.

(** X22.  When the exact number of distinct addresses is below
    [m = 2^p], [measure_hll] returns, with an estimate that is not
    negative and the elapsed time [stop - start]. *)
Theorem measure_hll_returns (sha1 : string -> Z) (ips : list string)
    (p : Z) (start stop : R) :
  4 <= p <= 16 ->
  exact_unique_count ips < 2 ^ p ->
  exists estimate,
    measure_hll sha1 ips p start stop = Ok (estimate, (stop - start)%R) /\
    (0 <= estimate)%R.
Proof.
  intros Hp Hn; rewrite measure_hll_run by assumption.
  pose proof (hll_init_wf _ _ (hll_init_ok p Hp)) as Hwf0.
  set (h0 := HLL.mkHyperLogLog _ _ _) in *.
  rewrite (hll_fold_same_elements sha1 (map PyStr ips)
             (map PyStr (nodup string_dec ips)) h0 Hwf0)
    by (apply map_PyStr_same; intros s; symmetry; apply nodup_In).
  set (items := map PyStr (nodup string_dec ips)).
  pose proof (hll_fold_wf sha1 items h0 Hwf0) as Hwf.
  assert (HV : 1 <= zero_registers
                      (HLL.registers (fold_left (hll_step sha1) items h0))).
  { pose proof (zero_registers_fold sha1 items h0) as H.
    assert (H0 : zero_registers (HLL.registers h0) = 2 ^ p).
    { subst h0; cbn [HLL.registers]; unfold zero_registers.
      rewrite count_occ_repeat_eq, Z.shiftl_1_l by reflexivity.
      rewrite Z2Nat.id; [reflexivity|apply Z.pow_nonneg; lia]. }
    assert (len items = exact_unique_count ips)
      by (subst items; unfold len, exact_unique_count; now rewrite length_map).
    lia. }
  destruct (count_returns_nonneg _ Hwf) as (r & Hr & Hr0).
  { apply corrected_below_iff; [exact Hwf|].
    apply raw_estimate_below_two_32; assumption. }
  exists r; rewrite Hr; split; [reflexivity|exact Hr0].
Qed.

Lemma count_occ_set_nth_drop (n : nat) (v x : Z) (l : list Z) :
  (n < List.length l)%nat -> nth n l x = x -> v <> x ->
  count_occ Z.eq_dec l x = S (count_occ Z.eq_dec (set_nth n v l) x).
Proof.
  revert n; induction l as [|h t IH]; intros [|n] Hn Hx Hv; simpl in *;
    try lia.
  - subst h; destruct (Z.eq_dec x x); [|congruence].
    destruct (Z.eq_dec v x); [contradiction|reflexivity].
  - rewrite (IH n) by (try lia; assumption).
    destruct (Z.eq_dec h x); reflexivity.
Qed.

(** After the first [add] on a fresh estimator exactly one register is
    not zero. *)
Lemma zero_registers_first_add sha1 p v :
  4 <= p <= 16 ->
  zero_registers
    (HLL.registers
       (hll_step sha1
          (HLL.mkHyperLogLog p (Z.shiftl 1 p)
             (repeat 0 (Z.to_nat (Z.shiftl 1 p)))) v))
  = 2 ^ p - 1.
Proof.
  intros Hp.
  pose proof (hll_init_wf _ _ (hll_init_ok p Hp)) as Hwf.
  set (h0 := HLL.mkHyperLogLog _ _ _) in *.
  destruct (hash_split sha1 p v) as (Hi & Hw & _);
    [unfold HLL.MAX_BITS; lia|].
  pose proof (rho_of_bounds p _ ltac:(unfold HLL.MAX_BITS; lia) Hw) as Hrho.
  assert (Hpow : 0 < 2 ^ p) by (apply Z.pow_pos_nonneg; lia).
  unfold hll_step, updated; cbn [HLL.registers HLL.with_registers HLL.p h0].
  rewrite nth_repeat.
  destruct (_ >? 0) eqn:E; [|lia].
  unfold zero_registers.
  pose proof (count_occ_set_nth_drop
                (Z.to_nat (reg_index sha1 p v))
                (rho_of p (reg_field sha1 p v)) 0
                (repeat 0 (Z.to_nat (Z.shiftl 1 p)))) as H.
  rewrite repeat_length, nth_repeat, count_occ_repeat_eq, Z.shiftl_1_l in H
    by reflexivity.
  rewrite Z.shiftl_1_l.
  specialize (H ltac:(lia) eq_refl ltac:(lia)); lia.
Qed.

(** X23.  A non-empty list that carries one address only, however often,
    is estimated at [m * ln (m / (m - 1))] with [m = 2^p], whatever the
    address. *)
Theorem measure_hll_single_address (sha1 : string -> Z) (a : string)
    (ips : list string) (p : Z) (start stop : R) :
  4 <= p <= 16 ->
  ips <> [] -> (forall s, In s ips -> s = a) ->
  measure_hll sha1 ips p start stop
  = Ok ((IZR (2 ^ p) * ln (IZR (2 ^ p) / IZR (2 ^ p - 1)))%R,
        (stop - start)%R).
Proof.
  intros Hp Hne Hall; rewrite measure_hll_run by assumption.
  pose proof (hll_init_wf _ _ (hll_init_ok p Hp)) as Hwf0.
  assert (Hsame : forall s, In s ips <-> In s [a]).
  { intros s; split.
    - intros Hs; left; symmetry; now apply Hall.
    - intros [<-|[]]; destruct ips as [|s0 t]; [congruence|].
      left; apply Hall; now left. }
  rewrite (hll_fold_same_elements sha1 (map PyStr ips) (map PyStr [a]) _ Hwf0)
    by (now apply map_PyStr_same).
  cbn [map fold_left].
  pose proof (zero_registers_first_add sha1 p (PyStr a) Hp) as HV.
  set (h := hll_step sha1 _ _) in *.
  assert (Hwf : hll_wf h) by (apply hll_add_wf, Hwf0).
  assert (Hm : HLL.m h = 2 ^ p) by (subst h; apply Z.shiftl_1_l).
  pose proof (wf_m_pos h Hwf) as Hm16.
  rewrite count_small_range;
    [|exact Hwf|apply many_zero_small_range; [exact Hwf|lia]].
  unfold linear_counting; now rewrite HV, Hm.
Qed.

(** ** The further properties at concrete inputs *)

(** The demonstration filter after the three existing passwords. *)
Definition loaded_filter : Bloom.BloomFilter :=
  snd (for_ existing_passwords (Bloom.add SHA256.sha256) demo_filter).

(** A filter of eight cells that are all set. *)
Definition full_filter : Bloom.BloomFilter :=
  Bloom.mkBloomFilter 8 2 (repeat 1 8%nat).

Definition sample_ips : list string :=
  ["10.0.0.1"; "10.0.0.2"; "10.0.0.1"; "192.168.1.7"]%string.

Definition sample_ips_sorted : list string :=
  ["192.168.1.7"; "10.0.0.2"; "10.0.0.1"]%string.

Lemma fresh_filter_contains_nothing_witness :
  (0 < 1000 /\ 0 < 3 /\ 3 <= int_str_limit /\ printable (PyStr "guest")) /\
  exists b,
    Bloom.__init__ 1000 3 = Ok b /\
    Bloom.__contains__ SHA256.sha256 (PyStr "guest") b = (Ok false, b).
Proof.
  assert (H1 : 0 < 1000) by lia.
  assert (H2 : 0 < 3) by lia.
  assert (Hk : 3 <= int_str_limit) by (apply Z.leb_le; vm_compute; reflexivity).
  assert (Hp : printable (PyStr "guest")) by (eexists; reflexivity).
  split; [exact (conj H1 (conj H2 (conj Hk Hp)))|].
  exact (fresh_filter_contains_nothing SHA256.sha256 1000 3 (PyStr "guest")
           H1 H2 Hk Hp).
Defined.

Lemma add_only_sets_bits_witness :
  (bloom_wf demo_filter /\ Bloom.num_hashes demo_filter <= int_str_limit /\
   printable (PyStr "guest")) /\
  exists b',
    Bloom.add SHA256.sha256 (PyStr "guest") demo_filter = (Ok tt, b') /\
    len (Bloom.bit_array b') = 1000.
Proof.
  assert (H : bloom_wf demo_filter) by (split; reflexivity).
  assert (Hk : Bloom.num_hashes demo_filter <= int_str_limit)
    by (apply Z.leb_le; vm_compute; reflexivity).
  assert (Hp : printable (PyStr "guest")) by (eexists; reflexivity).
  split; [exact (conj H (conj Hk Hp))|].
  destruct (add_only_sets_bits SHA256.sha256 demo_filter (PyStr "guest")
              H Hk Hp)
    as (b' & Hrun & _ & _ & Hlen & _).
  exists b'; split; [exact Hrun|exact Hlen].
Defined.

Lemma filter_depends_on_item_set_witness :
  (bloom_wf demo_filter /\ Bloom.num_hashes demo_filter <= int_str_limit /\
   Forall printable [PyStr "a"; PyStr "b"; PyStr "a"] /\
   forall x, In x [PyStr "a"; PyStr "b"; PyStr "a"]
             <-> In x [PyStr "b"; PyStr "a"]) /\
  exists b',
    for_ [PyStr "a"; PyStr "b"; PyStr "a"] (Bloom.add SHA256.sha256)
      demo_filter = (Ok tt, b') /\
    for_ [PyStr "b"; PyStr "a"] (Bloom.add SHA256.sha256) demo_filter
    = (Ok tt, b').
Proof.
  assert (H : bloom_wf demo_filter) by (split; reflexivity).
  assert (Hk : Bloom.num_hashes demo_filter <= int_str_limit)
    by (apply Z.leb_le; vm_compute; reflexivity).
  assert (Hp : Forall printable [PyStr "a"; PyStr "b"; PyStr "a"])
    by (repeat constructor; eexists; reflexivity).
  assert (Hs : forall x, In x [PyStr "a"; PyStr "b"; PyStr "a"]
                         <-> In x [PyStr "b"; PyStr "a"])
    by (intros x; simpl; tauto).
  split; [exact (conj H (conj Hk (conj Hp Hs)))|].
  exact (filter_depends_on_item_set SHA256.sha256 demo_filter _ _ H Hk Hp Hs).
Defined.

Lemma fill_bound_witness :
  (0 < 1000 /\ 0 < 3 /\ 3 <= int_str_limit /\
   Forall printable existing_passwords) /\
  exists b0 b,
    Bloom.__init__ 1000 3 = Ok b0 /\
    for_ existing_passwords (Bloom.add SHA256.sha256) b0 = (Ok tt, b) /\
    binary (Bloom.bit_array b) /\
    Z.of_nat (ones (Bloom.bit_array b)) <= 3 * len existing_passwords.
Proof.
  assert (H1 : 0 < 1000) by lia.
  assert (H2 : 0 < 3) by lia.
  assert (Hk : 3 <= int_str_limit) by (apply Z.leb_le; vm_compute; reflexivity).
  assert (Hp : Forall printable existing_passwords)
    by (repeat constructor; eexists; reflexivity).
  split; [exact (conj H1 (conj H2 (conj Hk Hp)))|].
  exact (fill_bound SHA256.sha256 1000 3 existing_passwords H1 H2 Hk Hp).
Defined.

Lemma normalized_items_collide_witness :
  (bloom_wf demo_filter /\ Bloom.num_hashes demo_filter <= int_str_limit /\
   printable (PyInt 123) /\
   Bloom._normalize (PyInt 123) = Bloom._normalize (PyStr "123")) /\
  exists b',
    Bloom.add SHA256.sha256 (PyInt 123) demo_filter = (Ok tt, b') /\
    Bloom.__contains__ SHA256.sha256 (PyStr "123") b' = (Ok true, b').
Proof.
  assert (H : bloom_wf demo_filter) by (split; reflexivity).
  assert (Hk : Bloom.num_hashes demo_filter <= int_str_limit)
    by (apply Z.leb_le; vm_compute; reflexivity).
  assert (Hp : printable (PyInt 123)) by (eexists; vm_compute; reflexivity).
  assert (Hn : Bloom._normalize (PyInt 123) = Bloom._normalize (PyStr "123"))
    by (vm_compute; reflexivity).
  split; [exact (conj H (conj Hk (conj Hp Hn)))|].
  exact (proj2 (normalized_items_collide SHA256.sha256 demo_filter
                  (PyInt 123) (PyStr "123") H Hk Hp Hn)).
Defined.

Lemma full_filter_contains_everything_witness :
  (bloom_wf full_filter /\ Bloom.num_hashes full_filter <= int_str_limit /\
   printable (PyStr "never added") /\
   Forall (fun v => v <> 0) (Bloom.bit_array full_filter)) /\
  Bloom.__contains__ SHA256.sha256 (PyStr "never added") full_filter
  = (Ok true, full_filter).
Proof.
  assert (H : bloom_wf full_filter) by (split; reflexivity).
  assert (Hk : Bloom.num_hashes full_filter <= int_str_limit)
    by (apply Z.leb_le; vm_compute; reflexivity).
  assert (Hp : printable (PyStr "never added")) by (eexists; reflexivity).
  assert (Hf : Forall (fun v => v <> 0) (Bloom.bit_array full_filter))
    by (simpl; repeat constructor; discriminate).
  split; [exact (conj H (conj Hk (conj Hp Hf)))|].
  exact (full_filter_contains_everything SHA256.sha256 full_filter
           (PyStr "never added") H Hk Hp Hf).
Defined.

Lemma check_adds_every_password_witness :
  (bloom_wf demo_filter /\ Bloom.num_hashes demo_filter <= int_str_limit /\
   Forall printable new_passwords_to_check) /\
  exists r b',
    Bloom.check_password_uniqueness SHA256.sha256 new_passwords_to_check
      demo_filter = (Ok r, b') /\
    forall x, In x new_passwords_to_check ->
      Bloom.__contains__ SHA256.sha256 x b' = (Ok true, b').
Proof.
  assert (H : bloom_wf demo_filter) by (split; reflexivity).
  assert (Hk : Bloom.num_hashes demo_filter <= int_str_limit)
    by (apply Z.leb_le; vm_compute; reflexivity).
  assert (Hp : Forall printable new_passwords_to_check)
    by (repeat constructor; eexists; reflexivity).
  split; [exact (conj H (conj Hk Hp))|].
  destruct (check_adds_every_password SHA256.sha256 demo_filter
              new_passwords_to_check H Hk Hp) as (r & b' & Hrun & _ & Hall).
  exists r, b'; split; [exact Hrun|exact Hall].
Defined.

Lemma reported_unique_was_absent_witness :
  (bloom_wf loaded_filter /\ Bloom.num_hashes loaded_filter <= int_str_limit /\
   Forall printable new_passwords_to_check) /\
  exists r b',
    Bloom.check_password_uniqueness SHA256.sha256 new_passwords_to_check
      loaded_filter = (Ok r, b') /\
    forall k, dict_get r k = Some Bloom.unique_label ->
      exists pwd, In pwd new_passwords_to_check /\ str pwd = Ok k /\
        Bloom.__contains__ SHA256.sha256 pwd loaded_filter
        = (Ok false, loaded_filter).
Proof.
  assert (H : bloom_wf loaded_filter) by (split; vm_compute; reflexivity).
  assert (Hk : Bloom.num_hashes loaded_filter <= int_str_limit)
    by (apply Z.leb_le; vm_compute; reflexivity).
  assert (Hp : Forall printable new_passwords_to_check)
    by (repeat constructor; eexists; reflexivity).
  split; [exact (conj H (conj Hk Hp))|].
  exact (reported_unique_was_absent SHA256.sha256 loaded_filter
           new_passwords_to_check H Hk Hp).
Defined.

Lemma known_passwords_leave_filter_witness :
  (bloom_wf loaded_filter /\
   forall x, In x existing_passwords ->
     Bloom.__contains__ SHA256.sha256 x loaded_filter
     = (Ok true, loaded_filter)) /\
  exists r,
    Bloom.check_password_uniqueness SHA256.sha256 existing_passwords
      loaded_filter = (Ok r, loaded_filter) /\
    Forall (fun kv => snd kv = Bloom.already_used_label) r.
Proof.
  assert (H : bloom_wf loaded_filter) by (split; vm_compute; reflexivity).
  assert (Hall : forall x, In x existing_passwords ->
            Bloom.__contains__ SHA256.sha256 x loaded_filter
            = (Ok true, loaded_filter))
    by (intros x [<-|[<-|[<-|[]]]]; vm_compute; reflexivity).
  split; [split; assumption|].
  exact (known_passwords_leave_filter SHA256.sha256 loaded_filter
           existing_passwords H Hall).
Defined.

Lemma check_twice_witness :
  (bloom_wf loaded_filter /\ Bloom.num_hashes loaded_filter <= int_str_limit /\
   Forall printable new_passwords_to_check) /\
  exists r b' r2,
    Bloom.check_password_uniqueness SHA256.sha256 new_passwords_to_check
      loaded_filter = (Ok r, b') /\
    Bloom.check_password_uniqueness SHA256.sha256 new_passwords_to_check b'
    = (Ok r2, b') /\
    keys r2 = keys r /\
    Forall (fun kv => snd kv = Bloom.already_used_label) r2.
Proof.
  assert (H : bloom_wf loaded_filter) by (split; vm_compute; reflexivity).
  assert (Hk : Bloom.num_hashes loaded_filter <= int_str_limit)
    by (apply Z.leb_le; vm_compute; reflexivity).
  assert (Hp : Forall printable new_passwords_to_check)
    by (repeat constructor; eexists; reflexivity).
  split; [exact (conj H (conj Hk Hp))|].
  exact (check_twice SHA256.sha256 loaded_filter new_passwords_to_check
           H Hk Hp).
Defined.

Lemma report_keys_first_occurrence_witness :
  (bloom_wf demo_filter /\ Bloom.num_hashes demo_filter <= int_str_limit /\
   Forall2 (fun pwd k => str pwd = Ok k)
     [PyInt 7; PyStr "x"; PyStr "7"; PyNone]
     ["7"; "x"; "7"; "None"]%string) /\
  exists r b',
    Bloom.check_password_uniqueness SHA256.sha256
      [PyInt 7; PyStr "x"; PyStr "7"; PyNone] demo_filter = (Ok r, b') /\
    keys r = ["7"; "x"; "None"]%string.
Proof.
  assert (H : bloom_wf demo_filter) by (split; reflexivity).
  assert (Hk : Bloom.num_hashes demo_filter <= int_str_limit)
    by (apply Z.leb_le; vm_compute; reflexivity).
  assert (Hf : Forall2 (fun pwd k => str pwd = Ok k)
                 [PyInt 7; PyStr "x"; PyStr "7"; PyNone]
                 ["7"; "x"; "7"; "None"]%string)
    by (repeat constructor).
  split; [exact (conj H (conj Hk Hf))|].
  destruct (report_keys_first_occurrence SHA256.sha256 demo_filter
              [PyInt 7; PyStr "x"; PyStr "7"; PyNone]
              ["7"; "x"; "7"; "None"]%string H Hk Hf)
    as (r & b' & Hrun & Hkeys & _).
  exists r, b'; split; [exact Hrun|exact Hkeys].
Defined.

Lemma repeated_password_reported_used_witness :
  (bloom_wf demo_filter /\ Bloom.num_hashes demo_filter <= int_str_limit /\
   Forall printable
     ([] ++ PyStr "a" :: [PyStr "b"] ++ PyStr "a" :: [PyStr "c"]) /\
   forall w, In w [PyStr "c"] -> str w <> str (PyStr "a")) /\
  exists r b' k,
    Bloom.check_password_uniqueness SHA256.sha256
      ([] ++ PyStr "a" :: [PyStr "b"] ++ PyStr "a" :: [PyStr "c"])
      demo_filter = (Ok r, b') /\
    str (PyStr "a") = Ok k /\
    dict_get r k = Some Bloom.already_used_label.
Proof.
  assert (H : bloom_wf demo_filter) by (split; reflexivity).
  assert (Hk : Bloom.num_hashes demo_filter <= int_str_limit)
    by (apply Z.leb_le; vm_compute; reflexivity).
  assert (Hp : Forall printable
                 ([] ++ PyStr "a" :: [PyStr "b"] ++ PyStr "a" :: [PyStr "c"]))
    by (repeat constructor; eexists; reflexivity).
  assert (Hl : forall w, In w [PyStr "c"] -> str w <> str (PyStr "a"))
    by (intros w [<-|[]]; discriminate).
  split; [exact (conj H (conj Hk (conj Hp Hl)))|].
  exact (repeated_password_reported_used SHA256.sha256 demo_filter
           [] [PyStr "b"] [PyStr "c"] (PyStr "a") H Hk Hp Hl).
Defined.

Lemma fresh_estimator_counts_zero_witness :
  4 <= 14 <= 16 /\
  exists h, HLL.__init__ 14 = Ok h /\ HLL.count h = (Ok 0%R, h).
Proof.
  assert (H : 4 <= 14 <= 16) by lia.
  split; [exact H|exact (fresh_estimator_counts_zero 14 H)].
Defined.

Lemma linear_counting_when_many_zero_witness :
  (hll_wf small_state /\
   bounded (HLL.p small_state) (HLL.registers small_state) /\
   3 * HLL.m small_state
   <= 10 * zero_registers (HLL.registers small_state)) /\
  HLL.count small_state = (Ok (16 * ln (16 / 13))%R, small_state).
Proof.
  assert (H : hll_wf small_state) by (repeat split; simpl; lia).
  assert (Hb : bounded (HLL.p small_state) (HLL.registers small_state))
    by (repeat constructor; unfold HLL.MAX_BITS; simpl; lia).
  assert (H3 : 3 * HLL.m small_state
               <= 10 * zero_registers (HLL.registers small_state))
    by (vm_compute; discriminate).
  split; [exact (conj H (conj Hb H3))|].
  exact (linear_counting_when_many_zero small_state H Hb H3).
Defined.

Lemma count_fails_beyond_two_32_witness :
  (hll_wf saturated /\
   bounded (HLL.p saturated) (HLL.registers saturated) /\
   (4294967296 * 1.000001 <= raw_estimate saturated)%R) /\
  HLL.count saturated = (Raise ValueError, saturated).
Proof.
  assert (H : hll_wf saturated) by (repeat split; simpl; lia).
  assert (Hb : bounded (HLL.p saturated) (HLL.registers saturated))
    by (repeat constructor; unfold HLL.MAX_BITS; simpl; lia).
  assert (HE : (4294967296 * 1.000001 <= raw_estimate saturated)%R)
    by (pose proof saturated_raw; lra).
  split; [exact (conj H (conj Hb HE))|].
  exact (proj1 (count_fails_beyond_two_32 saturated H Hb) HE).
Defined.

Lemma count_total_with_zero_register_witness :
  (hll_wf small_state /\
   bounded (HLL.p small_state) (HLL.registers small_state) /\
   1 <= zero_registers (HLL.registers small_state)) /\
  exists r, HLL.count small_state = (Ok r, small_state) /\ (0 <= r)%R.
Proof.
  assert (H : hll_wf small_state) by (repeat split; simpl; lia).
  assert (Hb : bounded (HLL.p small_state) (HLL.registers small_state))
    by (repeat constructor; unfold HLL.MAX_BITS; simpl; lia).
  assert (HV : 1 <= zero_registers (HLL.registers small_state))
    by (vm_compute; discriminate).
  split; [exact (conj H (conj Hb HV))|].
  exact (count_total_with_zero_register small_state H Hb HV).
Defined.

Lemma count_total_below_m_items_witness :
  (4 <= 4 <= 16 /\ len small_items < 2 ^ 4 /\ Forall printable small_items) /\
  exists h0 h r,
    HLL.__init__ 4 = Ok h0 /\
    for_ small_items (HLL.add SHA1.sha1) h0 = (Ok tt, h) /\
    1 <= zero_registers (HLL.registers h) /\
    HLL.count h = (Ok r, h) /\ (0 <= r)%R.
Proof.
  assert (H : 4 <= 4 <= 16) by lia.
  assert (Hn : len small_items < 2 ^ 4) by reflexivity.
  assert (Hp : Forall printable small_items)
    by (repeat constructor; eexists; reflexivity).
  split; [exact (conj H (conj Hn Hp))|].
  exact (count_total_below_m_items SHA1.sha1 4 small_items H Hn Hp).
Defined.

Lemma estimator_depends_on_item_set_witness :
  (hll_wf hll_p4 /\ Forall printable small_items /\
   forall x, In x small_items <-> In x [PyStr "c"; PyStr "b"; PyStr "a"]) /\
  exists h',
    for_ small_items (HLL.add SHA1.sha1) hll_p4 = (Ok tt, h') /\
    for_ [PyStr "c"; PyStr "b"; PyStr "a"] (HLL.add SHA1.sha1) hll_p4
    = (Ok tt, h').
Proof.
  assert (H : hll_wf hll_p4) by (repeat split; simpl; lia).
  assert (Hp : Forall printable small_items)
    by (repeat constructor; eexists; reflexivity).
  assert (Hs : forall x, In x small_items
                         <-> In x [PyStr "c"; PyStr "b"; PyStr "a"])
    by (intros x; simpl; tauto).
  split; [exact (conj H (conj Hp Hs))|].
  exact (estimator_depends_on_item_set SHA1.sha1 hll_p4 _ _ H Hp Hs).
Defined.

Lemma exact_unique_count_of_set_witness :
  (forall s, In s sample_ips <-> In s sample_ips_sorted) /\
  exact_unique_count sample_ips = exact_unique_count sample_ips_sorted /\
  0 <= exact_unique_count sample_ips <= len sample_ips.
Proof.
  assert (Hs : forall s, In s sample_ips <-> In s sample_ips_sorted)
    by (intros s; simpl; tauto).
  split; [exact Hs|].
  exact (exact_unique_count_of_set sample_ips sample_ips_sorted Hs).
Defined.

Lemma measure_hll_of_set_witness :
  (4 <= 14 <= 16 /\ forall s, In s sample_ips <-> In s sample_ips_sorted) /\
  measure_hll SHA1.sha1 sample_ips 14 0 1
  = measure_hll SHA1.sha1 sample_ips_sorted 14 0 1.
Proof.
  assert (H : 4 <= 14 <= 16) by lia.
  assert (Hs : forall s, In s sample_ips <-> In s sample_ips_sorted)
    by (intros s; simpl; tauto).
  split; [split; assumption|].
  exact (proj1 (measure_hll_of_set SHA1.sha1 sample_ips sample_ips_sorted
                  14 0 1 H Hs)).
Defined.

Lemma measure_hll_returns_witness :
  (4 <= 4 <= 16 /\ exact_unique_count sample_ips < 2 ^ 4) /\
  exists estimate,
    measure_hll SHA1.sha1 sample_ips 4 0 1 = Ok (estimate, (1 - 0)%R) /\
    (0 <= estimate)%R.
Proof.
  assert (H : 4 <= 4 <= 16) by lia.
  assert (Hn : exact_unique_count sample_ips < 2 ^ 4)
    by (vm_compute; reflexivity).
  split; [split; assumption|].
  exact (measure_hll_returns SHA1.sha1 sample_ips 4 0 1 H Hn).
Defined.

Lemma measure_hll_single_address_witness :
  (4 <= 14 <= 16 /\
   ["10.0.0.1"; "10.0.0.1"]%string <> [] /\
   forall s, In s ["10.0.0.1"; "10.0.0.1"]%string -> s = "10.0.0.1"%string) /\
  measure_hll SHA1.sha1 ["10.0.0.1"; "10.0.0.1"]%string 14 0 1
  = Ok ((IZR (2 ^ 14) * ln (IZR (2 ^ 14) / IZR (2 ^ 14 - 1)))%R, (1 - 0)%R).
Proof.
  assert (H : 4 <= 14 <= 16) by lia.
  assert (Hne : ["10.0.0.1"; "10.0.0.1"]%string <> []) by discriminate.
  assert (Hall : forall s, In s ["10.0.0.1"; "10.0.0.1"]%string ->
                           s = "10.0.0.1"%string)
    by (intros s [<-|[<-|[]]]; reflexivity).
  split; [split; [exact H|split; assumption]|].
  exact (measure_hll_single_address SHA1.sha1 "10.0.0.1"
           ["10.0.0.1"; "10.0.0.1"]%string 14 0 1 H Hne Hall).
Defined.
